(** * fold_eval_tts: batch packing and the resilient inference loop

    A shallow embedding of [src/evaluation/fold_eval_tts.py]: the generator
    [create_batched_sequence_datasest], the per-batch body of the loop of
    [run], the completion step that averages the confidences, the FASTA
    helpers [parse_fasta] and [write_fasta], and the annotation pass.

    Conventions.
    - Python [str] is [string]; [len] of a string is a [Z].
    - Python [int] is [Z] (unbounded).
    - Confidence scores are rationals ([Q]) where the program holds float
      tensors: the arithmetic the program performs on them is a
      left-to-right sum and one division, taken here without rounding.
    - A Python [dict] keeps insertion order, and the program reads that order
      ([sum(d.values())], [' '.join(... .items())]), so dictionaries are
      association lists with the update-in-place semantics of [d[k] = v].
    - The output directory is a finite map from file name to content; the
      file system under it says which writes raise.
    - The model ([infer], [output_to_pdb]) is an oracle. *)

From stdpp Require Import gmap strings.
From Stdlib Require Import ZArith QArith Qabs List String Ascii Bool Lia DecimalString.
From Stdlib Require Import Permutation Sorted.
Import ListNotations.

Local Open Scope string_scope.
Local Open Scope list_scope.
Local Open Scope Z_scope.

(** ** Python values and exceptions *)

(** Classes of the exceptions that occur in the program or may come out of
    the model or of the file system.  [NotImplementedError] and
    [RecursionError] derive from [RuntimeError] in Python,
    [FileNotFoundError] from [OSError]. *)
Inductive exn_class : Type :=
  | RuntimeError
  | NotImplementedError
  | RecursionError
  | ValueError
  | TypeError
  | KeyError
  | IndexError
  | AttributeError
  | ZeroDivisionError
  | OSError
  | FileNotFoundError
  | KeyboardInterrupt.

(** The values found in [e.args]: strings, and two kinds of object without
    a [startswith] attribute. *)
Inductive pyval : Type :=
  | PyStr (s : string)
  | PyInt (z : Z)
  | PyNone.

Record exn : Type := Exn { exc_class : exn_class; exc_args : list pyval }.

(** [isinstance(e, RuntimeError)], which is what [except RuntimeError] tests. *)
Definition isinstance_RuntimeError (e : exn) : bool :=
  match exc_class e with
  | RuntimeError | NotImplementedError | RecursionError => true
  | _ => false
  end.

(** Result of a call: a value, or a raised exception. *)
Inductive outcome (A : Type) : Type :=
  | Returned (a : A)
  | Raised (e : exn).
Arguments Returned {A} a.
Arguments Raised {A} e.

Definition bind {A B : Type} (m : outcome A) (k : A -> outcome B) : outcome B :=
  match m with
  | Returned a => k a
  | Raised e => Raised e
  end.

Notation "x <- m ;; k" := (bind m (fun x => k))
  (at level 100, m at next level, right associativity).

(** ** The batch packer (lines 65-89) *)

(** [len(seq)]. *)
Definition len (s : string) : Z := Z.of_nat (String.length s).

(** What the generator yields: the tuple [(batch_headers, batch_sequences)]. *)
Definition batch : Type := (list string * list string)%type.

(** The local variables of the generator. *)
Record packer_state : Type := PackerState {
  batch_headers : list string;
  batch_sequences : list string;
  num_tokens : Z
}.

Definition packer_init : packer_state :=
  {| batch_headers := []; batch_sequences := []; num_tokens := 0 |}.

(** [batch_headers.append(header); batch_sequences.append(seq);
    num_tokens += len(seq)]. *)
Definition packer_append (st : packer_state) (header seq : string) : packer_state :=
  {| batch_headers := batch_headers st ++ [header];
     batch_sequences := batch_sequences st ++ [seq];
     num_tokens := num_tokens st + len seq |}.

(** The [for] loop of the generator followed by the final [yield]; the
    result lists the yielded tuples in order.  The lists that were yielded are
    never mutated afterwards: the [else] branch rebinds the three variables
    to fresh values before it appends. *)
Fixpoint packer_loop (max_tokens_per_batch : Z) (sequences : list (string * string))
    (st : packer_state) : list batch :=
  match sequences with
  | [] => [(batch_headers st, batch_sequences st)]
  | (header, seq) :: rest =>
      if len seq + num_tokens st <=? max_tokens_per_batch then
        packer_loop max_tokens_per_batch rest (packer_append st header seq)
      else
        (batch_headers st, batch_sequences st)
          :: packer_loop max_tokens_per_batch rest (packer_append packer_init header seq)
  end.

Definition create_batched_sequence_datasest
    (sequences : list (string * string)) (max_tokens_per_batch : Z) : list batch :=
  packer_loop max_tokens_per_batch sequences packer_init.

(** The generator run to exhaustion, as a call that may raise.  Its body has
    no [raise], no indexing and no division, and [len] and [<=] are total on
    [str] and [int]: every run returns. *)
Definition run_packer (sequences : list (string * string)) (max_tokens_per_batch : Z)
    : outcome (list batch) :=
  Returned (create_batched_sequence_datasest sequences max_tokens_per_batch).

(** The commented-out loop of lines 70-76, kept in the source next to the
    active one: it closes the current batch only when that batch is not
    empty ([num_tokens > 0]). *)
Fixpoint packer_loop_commented (max_tokens_per_batch : Z)
    (sequences : list (string * string)) (st : packer_state) : list batch :=
  match sequences with
  | [] => [(batch_headers st, batch_sequences st)]
  | (header, seq) :: rest =>
      if (len seq + num_tokens st >? max_tokens_per_batch) && (num_tokens st >? 0) then
        (batch_headers st, batch_sequences st)
          :: packer_loop_commented max_tokens_per_batch rest
               (packer_append packer_init header seq)
      else
        packer_loop_commented max_tokens_per_batch rest (packer_append st header seq)
  end.

(** The pairs of a batch, as [zip(headers, sequences)] reads them. *)
Definition batch_pairs (b : batch) : list (string * string) :=
  combine (fst b) (snd b).

(** Sum of the lengths of a list of sequences. *)
Definition tokens (l : list string) : Z := fold_right (fun s acc => len s + acc) 0 l.

(** Sum of the sequence lengths of a batch. *)
Definition batch_tokens (b : batch) : Z := tokens (snd b).

(** The state of the generator is well formed when the two lists run in
    step and [num_tokens] is the sum of the lengths collected so far. *)
Definition packer_wf (st : packer_state) : Prop :=
  List.length (batch_headers st) = List.length (batch_sequences st)
  /\ num_tokens st = tokens (batch_sequences st).

(** Every yielded tuple holds as many headers as sequences. *)
Definition aligned (b : batch) : Prop := List.length (fst b) = List.length (snd b).

(** What can be said of a yielded tuple for any budget: it is empty, or
    within the budget, or one oversized sequence on its own. *)
Definition batch_ok (B : Z) (b : batch) : Prop :=
  snd b = []
  \/ (snd b <> [] /\ batch_tokens b <= B)
  \/ (exists s, snd b = [s] /\ B < len s).

(** The lengths of the sequences of a batch. *)
Definition batch_lengths (b : batch) : list Z := map len (snd b).

(** A string of [n] residues. *)
Fixpoint residues (n : nat) : string :=
  match n with
  | O => EmptyString
  | S n' => String "A"%char (residues n')
  end.

(** Four sequences of lengths 100, 200, 300 and 50. *)
Definition example_sequences : list (string * string) :=
  [("s1", residues 100); ("s2", residues 200); ("s3", residues 300); ("s4", residues 50)].

(** ** Strings

    A character is a code point below 256.  [is_space] is [str.isspace] on
    that range, the set that [str.split()] and [str.strip()] use. *)

Definition is_space (c : ascii) : bool :=
  let n := N_of_ascii c in
  (((9 <=? n) && (n <=? 13)) || ((28 <=? n) && (n <=? 32))
   || (n =? 133) || (n =? 160))%N.

(** [s.split()]: the maximal runs of characters that are not white space.
    [tok] is the run being read, if any. *)
Fixpoint split_from (s : string) (tok : option string) : list string :=
  match s with
  | EmptyString =>
      match tok with Some t => [t] | None => [] end
  | String c s' =>
      if is_space c then
        match tok with
        | Some t => t :: split_from s' None
        | None => split_from s' None
        end
      else
        split_from s'
          (Some (match tok with
                 | Some t => (t ++ String c EmptyString)%string
                 | None => String c EmptyString
                 end))
  end.

Definition split (s : string) : list string := split_from s None.

(** [s.split(sep)] for a one-character separator: never an empty list. *)
Fixpoint split_on (sep : ascii) (s : string) : list string :=
  match s with
  | EmptyString => [EmptyString]
  | String c s' =>
      if Ascii.eqb c sep then EmptyString :: split_on sep s'
      else match split_on sep s' with
           | t :: ts => String c t :: ts
           | [] => [String c EmptyString]
           end
  end.

Fixpoint lstrip (s : string) : string :=
  match s with
  | EmptyString => EmptyString
  | String c s' => if is_space c then lstrip s' else s
  end.

Fixpoint rstrip (s : string) : string :=
  match s with
  | EmptyString => EmptyString
  | String c s' =>
      let r := rstrip s' in
      if is_space c && String.eqb r EmptyString then EmptyString else String c r
  end.

(** [s.strip()]. *)
Definition strip (s : string) : string := rstrip (lstrip s).

(** [s.startswith(p)]. *)
Definition startswith (s p : string) : bool := String.prefix p s.

(** [s[1:]]. *)
Definition drop_first (s : string) : string :=
  match s with
  | EmptyString => EmptyString
  | String _ s' => s'
  end.

(** [sep.join(parts)]. *)
Definition join (sep : string) (parts : list string) : string :=
  String.concat sep parts.

Definition index_error (what : string) : exn :=
  Exn IndexError [PyStr (what ++ " index out of range")%string].

(** [header.split()[0]]. *)
Definition first_token (header : string) : outcome string :=
  match split header with
  | t :: _ => Returned t
  | [] => Raised (index_error "list")
  end.

(** ** Dictionaries

    Keys are strings.  [d[k] = v] keeps the position of a key that is
    already there and appends a new one. *)

Definition dict (V : Type) : Type := list (string * V).

Fixpoint dict_set {V : Type} (d : dict V) (k : string) (v : V) : dict V :=
  match d with
  | [] => [(k, v)]
  | (k', v') :: d' =>
      if String.eqb k' k then (k', v) :: d' else (k', v') :: dict_set d' k v
  end.

Fixpoint dict_get {V : Type} (d : dict V) (k : string) : option V :=
  match d with
  | [] => None
  | (k', v') :: d' => if String.eqb k' k then Some v' else dict_get d' k
  end.

(** [k in d]. *)
Definition dict_mem {V : Type} (d : dict V) (k : string) : bool :=
  match dict_get d k with Some _ => true | None => false end.

Definition dict_keys {V : Type} (d : dict V) : list string := map fst d.
Definition dict_values {V : Type} (d : dict V) : list V := map snd d.

(** ** Formatting a score: [f"{x:0.1f}"] and [f"{x:0.3f}"]

    The value is rounded to [d] decimals, ties to even, as Python rounds
    the exact value of a float. *)

Definition round_half_even (q : Q) : Z :=
  let n := Qnum q in
  let d := Zpos (Qden q) in
  let fl := n / d in
  let r := 2 * (n mod d) in
  if r <? d then fl
  else if d <? r then fl + 1
  else if Z.even fl then fl else fl + 1.

Definition digits (n : Z) : string :=
  DecimalString.NilZero.string_of_uint (N.to_uint (Z.to_N n)).

Fixpoint zeros (n : nat) : string :=
  match n with
  | O => EmptyString
  | S n' => String "0"%char (zeros n')
  end.

Definition format_fixed (d : nat) (q : Q) : string :=
  let scale := 10 ^ Z.of_nat d in
  let m := round_half_even (Qabs q * inject_Z scale) in
  let frac := digits (m mod scale) in
  let sign := if Qnum q <? 0 then "-" else EmptyString in
  match d with
  | O => (sign ++ digits m)%string
  | _ => (sign ++ digits (m / scale) ++ "."
            ++ zeros (d - String.length frac) ++ frac)%string
  end.

(** ** FASTA records (lines 135-169) *)

(** The dictionaries that [parse_fasta] builds: keys ['id'], ['seq'] and
    ['annotations']. *)
Record seq_record : Type := SeqRecord {
  rec_id : string;
  rec_seq : string;
  rec_annotations : dict string
}.

(** [if seq_id:] is false for [None] and for the empty string. *)
Definition truthy (seq_id : option string) : bool :=
  match seq_id with
  | Some s => negb (String.eqb s EmptyString)
  | None => false
  end.

(** One [k, v] of the comprehension: [item.split('=')] unpacked into two
    names. *)
Definition key_value (item : string) : outcome (string * string) :=
  match split_on "="%char item with
  | [k; v] => Returned (k, v)
  | [_] => Raised (Exn ValueError [PyStr "not enough values to unpack (expected 2, got 1)"])
  | _ => Raised (Exn ValueError [PyStr "too many values to unpack (expected 2)"])
  end.

(** [{k: v for k, v in (item.split('=') for item in items)}], a fresh
    dictionary for every header line. *)
Fixpoint annotations_of (items : list string) (d : dict string) : outcome (dict string) :=
  match items with
  | [] => Returned d
  | item :: rest =>
      kv <- key_value item ;;
      annotations_of rest (dict_set d (fst kv) (snd kv))
  end.

(** The local variables of [parse_fasta]. *)
Record parser_state : Type := ParserState {
  p_sequences : list seq_record;
  p_seq_id : option string;
  p_seq : list string;
  p_annotations : dict string
}.

(** [sequences.append({...})] when [seq_id] is set. *)
Definition flush (st : parser_state) : list seq_record :=
  match p_seq_id st with
  | Some i =>
      if truthy (p_seq_id st) then
        p_sequences st
          ++ [ {| rec_id := i; rec_seq := join EmptyString (p_seq st);
                  rec_annotations := p_annotations st |} ]
      else p_sequences st
  | None => p_sequences st
  end.

Definition parse_line (st : parser_state) (raw : string) : outcome parser_state :=
  let line := strip raw in
  if startswith line ">" then
    let sequences := flush st in
    match split (drop_first line) with
    | [] => Raised (index_error "list")
    | seq_id :: items =>
        annotations <- annotations_of items [] ;;
        Returned {| p_sequences := sequences; p_seq_id := Some seq_id;
                    p_seq := []; p_annotations := annotations |}
    end
  else
    Returned {| p_sequences := p_sequences st; p_seq_id := p_seq_id st;
                p_seq := p_seq st ++ [line]; p_annotations := p_annotations st |}.

Fixpoint parse_lines (lines : list string) (st : parser_state) : outcome parser_state :=
  match lines with
  | [] => Returned st
  | raw :: rest =>
      st' <- parse_line st raw ;;
      parse_lines rest st'
  end.

(** [parse_fasta], on the lines of the file. *)
Definition parse_fasta (lines : list string) : outcome (list seq_record) :=
  st <- parse_lines lines
          {| p_sequences := []; p_seq_id := None; p_seq := []; p_annotations := [] |} ;;
  Returned (flush st).

(** The line feed. *)
Definition nl : string := String "010"%char EmptyString.

(** The two [f.write] calls for one record. *)
Definition write_record (r : seq_record) : string :=
  let annotations :=
    join " " (map (fun kv => (fst kv ++ "=" ++ snd kv)%string) (rec_annotations r)) in
  (">" ++ rec_id r ++ " " ++ annotations ++ nl ++ rec_seq r ++ nl)%string.

(** [write_fasta]: the new content of the file. *)
Definition write_fasta (sequences : list seq_record) : string :=
  join EmptyString (map write_record sequences).

(** ** The model *)

(** What one successful [model.infer] gives the loop: [pdbs] is
    [model.output_to_pdb(output)], the other two are [output["mean_plddt"]]
    and [output["ptm"]]. *)
Record inference_output : Type := InferenceOutput {
  pdbs : list string;
  mean_plddt : list Q;
  ptm : list Q
}.

Inductive infer_result : Type :=
  | InferOk (out : inference_output)
  | InferRaise (e : exn).

(** [model.infer]: the answer may depend on which call it is (the number
    of the batch) as well as on the sequences. *)
Definition model : Type := nat -> list string -> infer_result.

(** ** The inference loop (lines 205-247) *)

(** The [logger.info] calls of the loop; timings are left out. *)
Inductive log_event : Type :=
  | LogOOMBatch (size : Z)
  | LogOOMSequence (header : string) (length : Z)
  | LogPredicted (header : string) (length : Z) (plddt ptm : string)
      (amortized : option Z) (completed total : Z).

(** The state the loop updates: the output directory, the counter, the
    two aggregates and the log. *)
Record loop_state : Type := LoopState {
  pdb_dir : gmap string string;
  num_completed : Z;
  pLDDT_dict : dict Q;
  pTM_dict : dict Q;
  log : list log_event
}.

Definition add_log (st : loop_state) (ev : log_event) : loop_state :=
  {| pdb_dir := pdb_dir st; num_completed := num_completed st;
     pLDDT_dict := pLDDT_dict st; pTM_dict := pTM_dict st;
     log := log st ++ [ev] |}.

(** How the loop, or one pass of its body, ends: normally, or with an
    exception leaving the loop; the state reached is kept in both cases. *)
Inductive loop_result : Type :=
  | Finished (st : loop_state)
  | Aborted (e : exn) (st : loop_state).

(** [f"{seq_id}.pdb"] in the output directory. *)
Definition pdb_name (seq_id : string) : string := (seq_id ++ ".pdb")%string.

(** The file system under the output directory, as [write_text] meets it:
    for a file name, the error that writing it raises, if any (a missing
    sub-directory for an id that holds a slash, a refused permission, and
    so on).  A write that raises leaves the directory as it was. *)
Definition file_system : Type := string -> option exn.

(** [zip] of the five sequences: it stops at the shortest. *)
Fixpoint zip5 (hs ss ps : list string) (ms ts : list Q)
    : list (string * string * string * Q * Q) :=
  match hs, ss, ps, ms, ts with
  | h :: hs', s :: ss', p :: ps', m :: ms', t :: ts' =>
      (h, s, p, m, t) :: zip5 hs' ss' ps' ms' ts'
  | _, _, _, _, _ => []
  end.

(** The body of the inner [for] (lines 237-247). *)
Definition record_prediction (fs : file_system) (num_sequences : Z)
    (amortized : option Z) (st : loop_state)
    (item : string * string * string * Q * Q) : loop_result :=
  let '(header, seq, pdb_string, plddt, tm) := item in
  match first_token header with
  | Raised e => Aborted e st
  | Returned seq_id =>
      match fs (pdb_name seq_id) with
      | Some e => Aborted e st
      | None =>
          let completed := num_completed st + 1 in
          Finished
            {| pdb_dir := <[pdb_name seq_id := pdb_string]> (pdb_dir st);
               num_completed := completed;
               pLDDT_dict := dict_set (pLDDT_dict st) seq_id plddt;
               pTM_dict := dict_set (pTM_dict st) seq_id tm;
               log := log st ++ [LogPredicted header (len seq) (format_fixed 1 plddt)
                                   (format_fixed 3 tm) amortized completed
                                   num_sequences] |}
      end
  end.

Fixpoint record_predictions (fs : file_system) (num_sequences : Z)
    (amortized : option Z) (items : list (string * string * string * Q * Q))
    (st : loop_state) : loop_result :=
  match items with
  | [] => Finished st
  | item :: rest =>
      match record_prediction fs num_sequences amortized st item with
      | Finished st' => record_predictions fs num_sequences amortized rest st'
      | Aborted e st' => Aborted e st'
      end
  end.

Definition oom_phrase : string := "CUDA out of memory".

(** The [except RuntimeError as e] handler (lines 214-226). *)
Definition handle_runtime_error (e : exn) (st : loop_state) (b : batch) : loop_result :=
  let '(headers, sequences) := b in
  match exc_args e with
  | [] => Aborted (index_error "tuple") st
  | PyStr msg :: _ =>
      if startswith msg oom_phrase then
        if Z.of_nat (List.length sequences) >? 1 then
          Finished (add_log st (LogOOMBatch (Z.of_nat (List.length sequences))))
        else
          match headers, sequences with
          | header :: _, seq :: _ => Finished (add_log st (LogOOMSequence header (len seq)))
          | _, _ => Aborted (index_error "list") st
          end
      else Aborted e st
  | PyInt _ :: _ =>
      Aborted (Exn AttributeError [PyStr "'int' object has no attribute 'startswith'"]) st
  | PyNone :: _ =>
      Aborted (Exn AttributeError [PyStr "'NoneType' object has no attribute 'startswith'"]) st
  end.

(** One pass of the outer [for] (lines 209-247); [k] numbers the call of
    the model.  [tottime / len(headers)] divides a float by an [int]. *)
Definition process_batch (fs : file_system) (infer : model) (num_sequences : Z)
    (k : nat) (st : loop_state) (b : batch) : loop_result :=
  let '(headers, sequences) := b in
  match infer k sequences with
  | InferRaise e =>
      if isinstance_RuntimeError e then handle_runtime_error e st b
      else Aborted e st
  | InferOk out =>
      match headers with
      | [] => Aborted (Exn ZeroDivisionError [PyStr "float division by zero"]) st
      | _ :: _ =>
          let size := Z.of_nat (List.length sequences) in
          record_predictions fs num_sequences
            (if size >? 1 then Some size else None)
            (zip5 headers sequences (pdbs out) (mean_plddt out) (ptm out)) st
      end
  end.

(** The outer [for] over the batches. *)
Fixpoint inference_loop (fs : file_system) (infer : model) (num_sequences : Z)
    (k : nat) (batches : list batch) (st : loop_state) : loop_result :=
  match batches with
  | [] => Finished st
  | b :: rest =>
      match process_batch fs infer num_sequences k st b with
      | Finished st' => inference_loop fs infer num_sequences (S k) rest st'
      | Aborted e st' => Aborted e st'
      end
  end.

(** The state before the loop, for an output directory holding [dir]. *)
Definition loop_init (dir : gmap string string) : loop_state :=
  {| pdb_dir := dir; num_completed := 0; pLDDT_dict := []; pTM_dict := []; log := [] |}.

(** ** Completion (lines 248-250) *)

(** [sum(values)]: starts from 0 and adds from the left. *)
Definition py_sum (values : list Q) : Q := fold_left Qplus values 0%Q.

Definition zero_division_error : exn :=
  Exn ZeroDivisionError [PyStr "division by zero"].

(** [x / n] for an [int] [n]. *)
Definition py_div (x : Q) (n : Z) : outcome Q :=
  if n =? 0 then Raised zero_division_error
  else Returned (x / inject_Z n)%Q.

(** [avg_pLDDT] and [avg_pTM]. *)
Definition averages (st : loop_state) : outcome (Q * Q) :=
  avg_pLDDT <- py_div (py_sum (dict_values (pLDDT_dict st))) (num_completed st) ;;
  avg_pTM <- py_div (py_sum (dict_values (pTM_dict st))) (num_completed st) ;;
  Returned (avg_pLDDT, avg_pTM).

(** ** Annotation of the records (lines 252-260) *)

Definition key_error (k : string) : exn := Exn KeyError [PyStr k].

(** The body of the [for] over the parsed records.  Every record owns its
    annotation dictionary ([parse_fasta] builds a new one per header line),
    so updating one record leaves the others as they are. *)
Definition annotate_record (pLDDT pTM : dict Q) (r : seq_record) : outcome seq_record :=
  if dict_mem pLDDT (rec_id r) then
    match dict_get pLDDT (rec_id r), dict_get pTM (rec_id r) with
    | Some p, Some t =>
        Returned
          {| rec_id := rec_id r; rec_seq := rec_seq r;
             rec_annotations :=
               dict_set (dict_set (rec_annotations r) "pLDDT" (format_fixed 1 p))
                 "pTM" (format_fixed 3 t) |}
    | _, _ => Raised (key_error (rec_id r))
    end
  else Returned r.

Fixpoint annotate (pLDDT pTM : dict Q) (records : list seq_record)
    : outcome (list seq_record) :=
  match records with
  | [] => Returned []
  | r :: rest =>
      r' <- annotate_record pLDDT pTM r ;;
      rest' <- annotate pLDDT pTM rest ;;
      Returned (r' :: rest')
  end.

(** ** [run] (lines 172-262) *)

(** [sorted(entries, key=lambda header_seq: len(header_seq[1]))]: the
    stable sort by sequence length. *)
Fixpoint insert_by_len (x : string * string) (l : list (string * string))
    : list (string * string) :=
  match l with
  | [] => [x]
  | y :: l' =>
      if len (snd y) <=? len (snd x) then y :: insert_by_len x l' else x :: l
  end.

Definition sorted_by_len (l : list (string * string)) : list (string * string) :=
  fold_left (fun acc x => insert_by_len x acc) l [].

(** What [run] leaves behind when it returns. *)
Record run_output : Type := RunOutput {
  out_dir : gmap string string;
  out_fasta : string;
  out_records : list seq_record;
  out_pLDDT : dict Q;
  out_pTM : dict Q;
  out_averages : Q * Q
}.

Definition loop_outcome (r : loop_result) : outcome loop_state :=
  match r with
  | Finished st => Returned st
  | Aborted e _ => Raised e
  end.

(** [run], for an input file that exists: [entries] is what [read_fasta]
    (of the [esm] package) reads from it, [lines] are the lines of the same
    file as [parse_fasta] reads them again, [dir] is the output directory
    and [fs] the file system under it.  The file is rewritten only when
    [run] returns. *)
Definition run (fs : file_system) (infer : model) (entries : list (string * string))
    (lines : list string) (max_tokens_per_batch : Z) (dir : gmap string string)
    : outcome run_output :=
  let all_sequences := sorted_by_len entries in
  let batched_sequences :=
    create_batched_sequence_datasest all_sequences max_tokens_per_batch in
  st <- loop_outcome
          (inference_loop fs infer (Z.of_nat (List.length all_sequences)) 0
             batched_sequences (loop_init dir)) ;;
  avgs <- averages st ;;
  sequences_with_annotations <- parse_fasta lines ;;
  annotated <- annotate (pLDDT_dict st) (pTM_dict st) sequences_with_annotations ;;
  Returned {| out_dir := pdb_dir st; out_fasta := write_fasta annotated;
              out_records := annotated;
              out_pLDDT := pLDDT_dict st; out_pTM := pTM_dict st;
              out_averages := avgs |}.

(** ** Vocabulary of the statements *)

(** The resource-exhaustion condition: a [RuntimeError] whose first
    argument is a string that starts with the out-of-memory phrase. *)
Definition is_oom (e : exn) : bool :=
  isinstance_RuntimeError e
  && match exc_args e with
     | PyStr msg :: _ => startswith msg oom_phrase
     | _ => false
     end.

(** An error the handler lets through: not a [RuntimeError], or one whose
    first argument is a string that does not start with the phrase. *)
Definition is_foreign (e : exn) : bool :=
  negb (isinstance_RuntimeError e)
  || match exc_args e with
     | PyStr msg :: _ => negb (startswith msg oom_phrase)
     | _ => false
     end.


(** The id of a header, where [header.split()] is not empty. *)
Definition seq_id_of (header : string) : string :=
  match split header with
  | t :: _ => t
  | [] => EmptyString
  end.

Definition item_id (item : string * string * string * Q * Q) : string :=
  let '(header, _, _, _, _) := item in seq_id_of header.

Definition item_plddt (item : string * string * string * Q * Q) : Q :=
  let '(_, _, _, plddt, _) := item in plddt.

Definition item_ptm (item : string * string * string * Q * Q) : Q :=
  let '(_, _, _, _, tm) := item in tm.

(** The tuples that one pass of the outer [for] visits. *)
Definition batch_items (infer : model) (k : nat) (b : batch)
    : list (string * string * string * Q * Q) :=
  match infer k (snd b) with
  | InferOk out => zip5 (fst b) (snd b) (pdbs out) (mean_plddt out) (ptm out)
  | InferRaise _ => []
  end.

(** The sequences a run completes: the tuples visited for every batch,
    in the order of the batches. *)
Fixpoint completed_items (infer : model) (k : nat) (batches : list batch)
    : list (string * string * string * Q * Q) :=
  match batches with
  | [] => []
  | b :: rest => batch_items infer k b ++ completed_items infer (S k) rest
  end.

(** The aggregate after the completed sequences have been recorded in
    order: one [d[seq_id] = score] for each. *)
Definition record_scores (score : string * string * string * Q * Q -> Q)
    (items : list (string * string * string * Q * Q)) (d : dict Q) : dict Q :=
  fold_left (fun d item => dict_set d (item_id item) (score item)) items d.

(** The score of the last completed sequence that carries a given id. *)
Definition last_score (score : string * string * string * Q * Q -> Q) (seq_id : string)
    (items : list (string * string * string * Q * Q)) : option Q :=
  fold_left (fun acc item => if String.eqb (item_id item) seq_id then Some (score item) else acc)
    items None.

(** The arithmetic mean of one score over all completed sequences. *)
Definition mean_of (score : string * string * string * Q * Q -> Q)
    (items : list (string * string * string * Q * Q)) : outcome Q :=
  py_div (py_sum (map score items)) (Z.of_nat (List.length items)).


(** The aggregates and the output directory go together: both
    dictionaries hold the same keys in the same order, and the directory
    holds what it held before the loop and one file per key. *)
Definition loop_inv (dir : gmap string string) (st : loop_state) : Prop :=
  dict_keys (pLDDT_dict st) = dict_keys (pTM_dict st)
  /\ forall name : string,
       is_Some (pdb_dir st !! name)
       <-> is_Some (dir !! name)
           \/ exists seq_id, name = pdb_name seq_id /\ In seq_id (dict_keys (pLDDT_dict st)).

(** The facts that hold between the state before and the state after a
    stretch of the loop that visited [items]. *)
Definition recorded (items : list (string * string * string * Q * Q))
    (st st' : loop_state) : Prop :=
  num_completed st' = num_completed st + Z.of_nat (List.length items)
  /\ pLDDT_dict st' = record_scores item_plddt items (pLDDT_dict st)
  /\ pTM_dict st' = record_scores item_ptm items (pTM_dict st)
  /\ forall dir, loop_inv dir st -> loop_inv dir st'.

(** File systems used in the examples: one that takes every file, and
    an output directory without sub-directories, where a name that holds a
    slash cannot be written. *)
Definition accepts_all : file_system := fun _ => None.

Fixpoint has_slash (s : string) : bool :=
  match s with
  | EmptyString => false
  | String c s' => Ascii.eqb c "/"%char || has_slash s'
  end.

Definition flat_directory : file_system :=
  fun name =>
    if has_slash name
    then Some (Exn FileNotFoundError [PyInt 2; PyStr "No such file or directory"])
    else None.

(** Models used in the examples. *)
Definition oom_error : exn :=
  Exn RuntimeError [PyStr "CUDA out of memory. Tried to allocate 2.00 GiB"].

Definition always_oom : model := fun _ _ => InferRaise oom_error.





(** Scores 0 and 90 for the two sequences of its only batch. *)
Definition zero_then_ninety : model :=
  fun _ _ =>
    InferOk {| pdbs := ["ATOM"; "ATOM"]; mean_plddt := [0 # 1; 90 # 1];
               ptm := [0 # 1; 1 # 2] |}.

(** Scores 80 and 90 for the two sequences of its only batch. *)
Definition two_scores : model :=
  fun _ _ =>
    InferOk {| pdbs := ["ATOM"; "ATOM"]; mean_plddt := [80 # 1; 90 # 1];
               ptm := [1 # 2; 7 # 10] |}.

(** ** Vocabulary of the further properties *)

(** Consecutive batches of a greedy packing: the first sequence of the
    later one did not fit into the earlier one. *)
Fixpoint greedy (B : Z) (batches : list batch) : Prop :=
  match batches with
  | b1 :: ((b2 :: _) as rest) =>
      (exists s ss, snd b2 = s :: ss /\ B < batch_tokens b1 + len s) /\ greedy B rest
  | _ => True
  end.

(** The order of [sorted]: by length of the sequence. *)
Definition le_len (x y : string * string) : Prop := len (snd x) <= len (snd y).

(** The pairs whose sequence has length [n]. *)
Definition of_len (n : Z) (l : list (string * string)) : list (string * string) :=
  filter (fun x => len (snd x) =? n) l.

(** [header.split()] is not empty. *)
Definition has_token (header : string) : bool :=
  match split header with
  | [] => false
  | _ :: _ => true
  end.

Definition item_header (item : string * string * string * Q * Q) : string :=
  let '(header, _, _, _, _) := item in header.



(** What stops the body of the inner loop at a header, if anything: the
    [IndexError] of [header.split()[0]] for a header without an id, or else
    the error that the file system raises for the file of the id. *)
Definition header_failure (fs : file_system) (header : string) : option exn :=
  match first_token header with
  | Raised e => Some e
  | Returned seq_id => fs (pdb_name seq_id)
  end.

Definition item_failure (fs : file_system)
    (item : string * string * string * Q * Q) : option exn :=
  header_failure fs (item_header item).

(** Every character of a string passes a test. *)
Fixpoint all_chars (p : ascii -> bool) (s : string) : bool :=
  match s with
  | EmptyString => true
  | String c s' => p c && all_chars p s'
  end.

Definition no_space (s : string) : bool := all_chars (fun c => negb (is_space c)) s.

Definition only_space (s : string) : bool := all_chars is_space s.

Definition no_equals (s : string) : bool :=
  all_chars (fun c => negb (Ascii.eqb c "="%char)) s.

(** A key or a value that a header line can carry as [key=value]. *)
Definition plain (s : string) : Prop := no_space s = true /\ no_equals s = true.

(** A record that [write_fasta] writes without loss: an id that is one
    token, a sequence free of white space that does not look like a header,
    and annotations whose keys are distinct and whose keys and values hold
    neither white space nor [=]. *)
Definition writable (r : seq_record) : Prop :=
  rec_id r <> EmptyString
  /\ no_space (rec_id r) = true
  /\ no_space (rec_seq r) = true
  /\ startswith (rec_seq r) ">" = false
  /\ NoDup (dict_keys (rec_annotations r))
  /\ Forall (fun kv => plain (fst kv) /\ plain (snd kv)) (rec_annotations r).

(** What [parse_fasta] guarantees of a record it returns. *)
Definition parsed_ok (r : seq_record) : Prop :=
  rec_id r <> EmptyString
  /\ no_space (rec_id r) = true
  /\ NoDup (dict_keys (rec_annotations r))
  /\ Forall (fun kv => plain (fst kv) /\ plain (snd kv)) (rec_annotations r).

(** [for line in f] on a file opened in text mode: a line ends with a line
    feed, and a carriage return, alone or before a line feed, is read as
    one. *)
Fixpoint file_lines_from (text cur : string) : list string :=
  match text with
  | EmptyString => if String.eqb cur EmptyString then [] else [cur]
  | String c rest =>
      if Ascii.eqb c "010"%char then (cur ++ nl)%string :: file_lines_from rest EmptyString
      else if Ascii.eqb c "013"%char then
        match rest with
        | String c' rest' =>
            if Ascii.eqb c' "010"%char
            then (cur ++ nl)%string :: file_lines_from rest' EmptyString
            else (cur ++ nl)%string :: file_lines_from rest EmptyString
        | EmptyString => [(cur ++ nl)%string]
        end
      else file_lines_from rest (cur ++ String c EmptyString)
  end.

Definition file_lines (text : string) : list string := file_lines_from text EmptyString.

(** A line that [parse_fasta] takes for a header. *)
Definition is_header (raw : string) : bool := startswith (strip raw) ">".

(** What [parse_fasta] reads off a header line: the id and the
    annotations. *)
Definition parse_header (raw : string) : outcome (string * dict string) :=
  match split (drop_first (strip raw)) with
  | [] => Raised (index_error "list")
  | seq_id :: items =>
      annotations <- annotations_of items [] ;;
      Returned (seq_id, annotations)
  end.

(** A header line with the lines that follow it up to the next header. *)
Definition block : Type := (string * list string)%type.

Definition block_lines (b : block) : list string := fst b :: snd b.

Definition decode_block (b : block) : outcome seq_record :=
  ia <- parse_header (fst b) ;;
  Returned {| rec_id := fst ia; rec_seq := join EmptyString (map strip (snd b));
              rec_annotations := snd ia |}.

Fixpoint decode_blocks (blocks : list block) : outcome (list seq_record) :=
  match blocks with
  | [] => Returned []
  | b :: rest =>
      r <- decode_block b ;;
      rs <- decode_blocks rest ;;
      Returned (r :: rs)
  end.

Definition well_formed_block (b : block) : Prop :=
  is_header (fst b) = true /\ Forall (fun raw => is_header raw = false) (snd b).

(** The text of one annotation and of the header of a record, as
    [write_fasta] forms them. *)
Definition annotation_text (kv : string * string) : string :=
  (fst kv ++ "=" ++ snd kv)%string.

Definition header_text (r : seq_record) : string :=
  (">" ++ rec_id r ++ " " ++ join " " (map annotation_text (rec_annotations r)))%string.

(** The lines that [write_fasta] writes for one record. *)
Definition record_lines (r : seq_record) : list string :=
  [(header_text r ++ nl)%string; (rec_seq r ++ nl)%string].

(** Neither a line feed nor a carriage return. *)
Definition no_break (s : string) : bool :=
  all_chars (fun c => negb (Ascii.eqb c "010"%char) && negb (Ascii.eqb c "013"%char)) s.

(** A header line that [parse_fasta] can read: it holds an id, and every
    token after the id splits at [=] into exactly two parts. *)
Definition header_ok (raw : string) : bool :=
  match split (drop_first (strip raw)) with
  | [] => false
  | _ :: items =>
      forallb (fun item => Nat.eqb (List.length (split_on "="%char item)) 2) items
  end.

(** ** Small checks *)

Example packer_small :
  create_batched_sequence_datasest [("a", "AA"); ("b", "AAA"); ("c", "AAAA")] 5
  = [(["a"; "b"], ["AA"; "AAA"]); (["c"], ["AAAA"])].
Proof. reflexivity. Qed.

Example split_example : split "  sp|P1  len=3 " = ["sp|P1"; "len=3"].
Proof. reflexivity. Qed.

Example format_1 : format_fixed 1 (85 # 1) = "85.0".
Proof. reflexivity. Qed.

Example format_3 : format_fixed 3 (1 # 8) = "0.125" /\ format_fixed 3 (1 # 16) = "0.062"
  /\ format_fixed 1 (7 # 100) = "0.1" /\ format_fixed 3 (1#1000) = "0.001" /\ format_fixed 1 (9996 # 100) = "100.0".
Proof. repeat split; reflexivity. Qed.

(** Two completed sequences with mean confidences 80 and 90: the reported
    average is 85. *)
Example average_of_two :
  exists st avg,
    inference_loop accepts_all two_scores 2 0 [(["a"; "b"], ["AA"; "CC"])]
      (loop_init ∅) = Finished st
    /\ num_completed st = 2
    /\ averages st = Returned avg /\ (fst avg == 85 # 1)%Q.
Proof. eexists. eexists. repeat split; reflexivity. Qed.

Example parse_example :
  parse_fasta [">a x=1 y=2"; "AAAA"; "CC"; ">b"; "GG"]
  = Returned [ SeqRecord "a" "AAAACC" [("x", "1"); ("y", "2")]; SeqRecord "b" "GG" [] ].
Proof. reflexivity. Qed.

(** ** The batch packer: invariants of the generator loop *)

Lemma len_nonneg (s : string) : 0 <= len s.
Proof. unfold len. lia. Qed.

Lemma len_zero (s : string) : len s = 0 -> s = EmptyString.
Proof. destruct s; unfold len; simpl; [reflexivity | lia]. Qed.

Lemma tokens_snoc (l : list string) (s : string) : tokens (l ++ [s]) = tokens l + len s.
Proof. induction l as [| x l IH]; simpl; lia. Qed.

Lemma tokens_nonneg (l : list string) : 0 <= tokens l.
Proof. induction l as [| x l IH]; simpl; [lia | pose proof (len_nonneg x); lia]. Qed.

Lemma tokens_zero (l : list string) (s : string) :
  tokens l <= 0 -> In s l -> s = EmptyString.
Proof.
  induction l as [| x l IH]; simpl; intros Hle Hin; [contradiction |].
  destruct Hin as [Heq | Hin].
  - subst x. apply len_zero. pose proof (len_nonneg s). pose proof (tokens_nonneg l). lia.
  - apply IH; [| exact Hin]. pose proof (len_nonneg x). lia.
Qed.

Lemma combine_snoc {A B : Type} (l : list A) (l' : list B) (a : A) (b : B) :
  List.length l = List.length l' -> combine (l ++ [a]) (l' ++ [b]) = combine l l' ++ [(a, b)].
Proof.
  revert l'. induction l as [| x l IH]; intros [| y l'] Hlen; simpl in *; try discriminate.
  - reflexivity.
  - f_equal. apply IH. congruence.
Qed.

Lemma packer_wf_init : packer_wf packer_init.
Proof. split; reflexivity. Qed.

Lemma packer_wf_append (st : packer_state) (header seq : string) :
  packer_wf st -> packer_wf (packer_append st header seq).
Proof.
  intros [Hlen Htok]. split; simpl.
  - rewrite !length_app. simpl. lia.
  - rewrite tokens_snoc. lia.
Qed.

Create HintDb packer.
#[local] Hint Resolve packer_wf_init packer_wf_append : packer.

Lemma packer_loop_aligned (B : Z) (l : list (string * string)) :
  forall st, packer_wf st -> Forall aligned (packer_loop B l st).
Proof.
  induction l as [| [header seq] l IH]; intros st Hwf; simpl.
  - constructor; [apply Hwf | constructor].
  - destruct (len seq + num_tokens st <=? B).
    + apply IH. auto with packer.
    + constructor; [apply Hwf |]. apply IH. auto with packer.
Qed.

Lemma packer_loop_headers (B : Z) (l : list (string * string)) :
  forall st, List.concat (map fst (packer_loop B l st)) = batch_headers st ++ map fst l.
Proof.
  induction l as [| [header seq] l IH]; intros st; simpl.
  - reflexivity.
  - destruct (len seq + num_tokens st <=? B); simpl; rewrite IH; simpl.
    + rewrite <- app_assoc. reflexivity.
    + reflexivity.
Qed.

Lemma packer_loop_sequences (B : Z) (l : list (string * string)) :
  forall st, List.concat (map snd (packer_loop B l st)) = batch_sequences st ++ map snd l.
Proof.
  induction l as [| [header seq] l IH]; intros st; simpl.
  - reflexivity.
  - destruct (len seq + num_tokens st <=? B); simpl; rewrite IH; simpl.
    + rewrite <- app_assoc. reflexivity.
    + reflexivity.
Qed.

Lemma packer_loop_pairs (B : Z) (l : list (string * string)) :
  forall st, packer_wf st ->
    flat_map batch_pairs (packer_loop B l st)
    = combine (batch_headers st) (batch_sequences st) ++ l.
Proof.
  induction l as [| [header seq] l IH]; intros st Hwf; simpl.
  - unfold batch_pairs. simpl. reflexivity.
  - destruct (len seq + num_tokens st <=? B); simpl.
    + rewrite IH by auto with packer. simpl.
      rewrite combine_snoc by apply Hwf. rewrite <- app_assoc. reflexivity.
    + rewrite IH by auto with packer. reflexivity.
Qed.

Lemma batch_ok_append_fits (B : Z) (st : packer_state) (header seq : string) :
  packer_wf st -> len seq + num_tokens st <= B ->
  batch_ok B (batch_headers (packer_append st header seq),
              batch_sequences (packer_append st header seq)).
Proof.
  intros [_ Htok] Hle. right. left. unfold batch_tokens. simpl. split.
  - destruct (batch_sequences st); discriminate.
  - rewrite tokens_snoc. lia.
Qed.

Lemma batch_ok_fresh (B : Z) (header seq : string) :
  batch_ok B (batch_headers (packer_append packer_init header seq),
              batch_sequences (packer_append packer_init header seq)).
Proof.
  simpl. destruct (Z_le_gt_dec (len seq) B) as [Hle | Hgt].
  - right. left. split; [discriminate | unfold batch_tokens; simpl; lia].
  - right. right. exists seq. split; [reflexivity | lia].
Qed.

Lemma packer_loop_ok (B : Z) (l : list (string * string)) :
  forall st, packer_wf st ->
    batch_ok B (batch_headers st, batch_sequences st) ->
    Forall (batch_ok B) (packer_loop B l st).
Proof.
  induction l as [| [header seq] l IH]; intros st Hwf Hok; simpl.
  - constructor; [exact Hok | constructor].
  - destruct (len seq + num_tokens st <=? B) eqn:Hcmp.
    + apply IH; [auto with packer |].
      apply batch_ok_append_fits; [exact Hwf | lia].
    + constructor; [exact Hok |].
      apply IH; [auto with packer | apply batch_ok_fresh].
Qed.

Lemma packer_ok (B : Z) (sequences : list (string * string)) :
  Forall (batch_ok B) (create_batched_sequence_datasest sequences B).
Proof.
  apply packer_loop_ok; [apply packer_wf_init | left; reflexivity].
Qed.

Lemma packer_aligned (B : Z) (sequences : list (string * string)) :
  Forall aligned (create_batched_sequence_datasest sequences B).
Proof. apply packer_loop_aligned, packer_wf_init. Qed.

Lemma aligned_singleton (b : batch) (s : string) :
  aligned b -> snd b = [s] -> exists h, b = ([h], [s]).
Proof.
  destruct b as [hs ss]. unfold aligned. simpl. intros Hlen ->.
  destruct hs as [| h [| h' hs]]; simpl in Hlen; try discriminate.
  exists h. reflexivity.
Qed.

Lemma aligned_empty (b : batch) : aligned b -> snd b = [] -> b = ([], []).
Proof.
  destruct b as [hs ss]. unfold aligned. simpl. intros Hlen ->.
  destruct hs; [reflexivity | discriminate].
Qed.

Lemma packer_loop_later_batches (B : Z) (l : list (string * string)) :
  forall st, batch_sequences st <> [] ->
    Forall (fun b => snd b <> []) (packer_loop B l st).
Proof.
  induction l as [| [header seq] l IH]; intros st Hne; simpl.
  - constructor; [exact Hne | constructor].
  - destruct (len seq + num_tokens st <=? B).
    + apply IH. simpl. destruct (batch_sequences st); discriminate.
    + constructor; [exact Hne |]. apply IH. discriminate.
Qed.

(** The generator always yields at least once, and only the first tuple
    it yields can be empty. *)
Lemma packer_first_and_rest (B : Z) (sequences : list (string * string)) :
  exists b0 rest,
    create_batched_sequence_datasest sequences B = b0 :: rest
    /\ Forall (fun b => snd b <> []) rest.
Proof.
  unfold create_batched_sequence_datasest.
  destruct sequences as [| [header seq] l]; simpl.
  - exists ([], []), []. split; [reflexivity | constructor].
  - destruct (len seq + 0 <=? B).
    + pose proof (packer_loop_later_batches B l (packer_append packer_init header seq))
        as Hall.
      destruct (packer_loop B l (packer_append packer_init header seq)) as [| b0 rest] eqn:E.
      * destruct l as [| [h s] l]; simpl in E; [discriminate |].
        destruct (len s + _ <=? B) in E; [| discriminate].
        exfalso. revert E. generalize (packer_append (packer_append packer_init header seq) h s).
        induction l as [| [h' s'] l IH]; intros st; simpl; [discriminate |].
        destruct (len s' + num_tokens st <=? B); [apply IH | discriminate].
      * exists b0, rest. split; [reflexivity |].
        assert (Hne : batch_sequences (packer_append packer_init header seq) <> [])
          by discriminate.
        specialize (Hall Hne). inversion Hall; assumption.
    + exists ([], []), (packer_loop B l (packer_append packer_init header seq)).
      split; [reflexivity |]. apply packer_loop_later_batches. discriminate.
Qed.

Lemma packer_empty_input (B : Z) :
  create_batched_sequence_datasest [] B = [([], [])].
Proof. reflexivity. Qed.

(** The first tuple is empty exactly when the first sequence alone is over
    the budget. *)
Lemma packer_oversized_first (B : Z) (header seq : string) (l : list (string * string)) :
  B < len seq ->
  exists rest, create_batched_sequence_datasest ((header, seq) :: l) B = ([], []) :: rest.
Proof.
  intros Hgt. unfold create_batched_sequence_datasest. simpl.
  destruct (len seq + 0 <=? B) eqn:E; [lia |]. eexists. reflexivity.
Qed.

(** The commented-out loop yields no empty tuple for a non-empty input. *)
Lemma packer_loop_commented_nonempty (B : Z) (l : list (string * string)) :
  forall st, packer_wf st -> (l <> [] \/ batch_sequences st <> []) ->
    Forall (fun b => snd b <> []) (packer_loop_commented B l st).
Proof.
  induction l as [| [header seq] l IH]; intros st Hwf Hne; simpl.
  - constructor; [| constructor]. destruct Hne as [Hne | Hne]; [congruence | exact Hne].
  - destruct ((len seq + num_tokens st >? B) && (num_tokens st >? 0)) eqn:Hcmp.
    + apply andb_prop in Hcmp as [_ Hpos]. constructor.
      * simpl. intros Hnil. destruct Hwf as [_ Htok]. rewrite Hnil in Htok.
        simpl in Htok. lia.
      * apply IH; [auto with packer | right; discriminate].
    + apply IH; [auto with packer |]. right. simpl.
      destruct (batch_sequences st); discriminate.
Qed.

(** The two branches of the [if], as equations. *)
Lemma packer_loop_fits (B : Z) (header seq : string) (l : list (string * string))
    (st : packer_state) :
  len seq + num_tokens st <= B ->
  packer_loop B ((header, seq) :: l) st = packer_loop B l (packer_append st header seq).
Proof.
  intros Hle. simpl. destruct (len seq + num_tokens st <=? B) eqn:E; [reflexivity | lia].
Qed.

Lemma packer_loop_closes (B : Z) (header seq : string) (l : list (string * string))
    (st : packer_state) :
  B < len seq + num_tokens st ->
  packer_loop B ((header, seq) :: l) st
  = (batch_headers st, batch_sequences st)
      :: packer_loop B l (packer_append packer_init header seq).
Proof.
  intros Hgt. simpl. destruct (len seq + num_tokens st <=? B) eqn:E; [lia | reflexivity].
Qed.

(** ** The batch packer: the claims *)

(** C1 (amended).  For sequences of lengths 100, 200, 300 and 50 and a
    budget of 350 the packer yields exactly two batches, [100, 200] and
    [300, 50]: the third sequence would bring the first batch to 600, so
    that batch is closed and a new one starts with it, and the fourth
    brings the new batch to exactly 350, which is within the budget. *)
Theorem C1_example_batches (h1 h2 h3 h4 s1 s2 s3 s4 : string) :
  len s1 = 100 -> len s2 = 200 -> len s3 = 300 -> len s4 = 50 ->
  create_batched_sequence_datasest [(h1, s1); (h2, s2); (h3, s3); (h4, s4)] 350
  = [([h1; h2], [s1; s2]); ([h3; h4], [s3; s4])].
Proof.
  intros H1 H2 H3 H4. unfold create_batched_sequence_datasest.
  rewrite packer_loop_fits by (simpl; lia).
  rewrite packer_loop_fits by (simpl; lia).
  rewrite packer_loop_closes by (simpl; lia).
  rewrite packer_loop_fits by (simpl; lia).
  reflexivity.
Qed.

Lemma C1_example_batches_witness :
  len (residues 100) = 100 /\ len (residues 200) = 200
  /\ len (residues 300) = 300 /\ len (residues 50) = 50
  /\ create_batched_sequence_datasest example_sequences 350
     = [(["s1"; "s2"], [residues 100; residues 200]);
        (["s3"; "s4"], [residues 300; residues 50])].
Proof.
  do 4 (split; [reflexivity |]).
  apply (C1_example_batches "s1" "s2" "s3" "s4"
           (residues 100) (residues 200) (residues 300) (residues 50));
    reflexivity.
Defined.

(** C1 as stated fails: three batches [100, 200], [300], [50] are not what
    the packer yields for these lengths. *)
Lemma C1_three_batches_refuted :
  map batch_lengths (create_batched_sequence_datasest example_sequences 350)
  = [[100; 200]; [300; 50]]
  /\ map batch_lengths (create_batched_sequence_datasest example_sequences 350)
     <> [[100; 200]; [300]; [50]].
Proof.
  split; [vm_compute; reflexivity |].
  vm_compute. intros H. discriminate H.
Qed.

(** C3.  A first sequence longer than the budget makes the packer yield
    an empty batch before it: for the one pair [("h", "AAAA")] and budget 3
    two batches come out, the first of them empty, although the input is
    not.  The commented-out loop yields the single batch holding the pair. *)
Theorem C3_empty_batch_before_oversized_first :
  create_batched_sequence_datasest [("h", "AAAA")] 3 = [([], []); (["h"], ["AAAA"])]
  /\ packer_loop_commented 3 [("h", "AAAA")] packer_init = [(["h"], ["AAAA"])].
Proof. split; reflexivity. Qed.

(** C4 (amended).  A budget that is zero or negative is not rejected: the
    packer returns, its batches still partition the input in order, and
    every pair whose sequence is not empty is alone in its batch. *)
Theorem C4_nonpositive_budget_not_rejected
    (sequences : list (string * string)) (B : Z) :
  B <= 0 ->
  (forall e, run_packer sequences B <> Raised e)
  /\ exists batches,
       run_packer sequences B = Returned batches
       /\ flat_map batch_pairs batches = sequences
       /\ forall b s, In b batches -> In s (snd b) -> s <> EmptyString ->
            exists h, b = ([h], [s]).
Proof.
  intros HB. split; [intros e; discriminate |].
  exists (create_batched_sequence_datasest sequences B). split; [reflexivity |]. split.
  - unfold create_batched_sequence_datasest.
    rewrite packer_loop_pairs by apply packer_wf_init. reflexivity.
  - intros b s Hb Hs Hne.
    pose proof (packer_ok B sequences) as Hok.
    pose proof (packer_aligned B sequences) as Hal.
    rewrite Forall_forall in Hok, Hal.
    destruct (Hok b Hb) as [Hnil | [[_ Hle] | [s' [Hone Hgt]]]].
    + rewrite Hnil in Hs. contradiction.
    + exfalso. apply Hne. apply (tokens_zero (snd b)); [unfold batch_tokens in Hle; lia | exact Hs].
    + rewrite Hone in Hs. destruct Hs as [-> | []].
      apply aligned_singleton; [apply Hal; exact Hb | exact Hone].
Qed.

Lemma C4_nonpositive_budget_not_rejected_witness :
  0 <= 0
  /\ (forall e, run_packer [("h", "A")] 0 <> Raised e)
  /\ exists batches,
       run_packer [("h", "A")] 0 = Returned batches
       /\ flat_map batch_pairs batches = [("h", "A")]
       /\ forall b s, In b batches -> In s (snd b) -> s <> EmptyString ->
            exists h, b = ([h], [s]).
Proof.
  split; [lia |]. apply (C4_nonpositive_budget_not_rejected [("h", "A")] 0). lia.
Defined.

(** C4 as stated fails: with budget 0, and with budget -5, the packer
    raises nothing and returns an empty batch followed by the pair. *)
Lemma C4_no_error_raised :
  run_packer [("h", "A")] 0 = Returned [([], []); (["h"], ["A"])]
  /\ run_packer [("h", "A")] (-5) = Returned [([], []); (["h"], ["A"])]
  /\ forall e, run_packer [("h", "A")] 0 <> Raised e.
Proof. repeat split. intros e H. discriminate H. Qed.

(** C5.  Whatever the input and the budget, the batches read in order give
    back the input: the pairs of the batches concatenated are the input
    list, so are the headers and the sequences taken separately, and every
    batch holds as many headers as sequences. *)
Theorem C5_batches_partition_input (sequences : list (string * string)) (B : Z) :
  flat_map batch_pairs (create_batched_sequence_datasest sequences B) = sequences
  /\ List.concat (map fst (create_batched_sequence_datasest sequences B))
     = map fst sequences
  /\ List.concat (map snd (create_batched_sequence_datasest sequences B))
     = map snd sequences
  /\ Forall aligned (create_batched_sequence_datasest sequences B).
Proof.
  unfold create_batched_sequence_datasest. repeat split.
  - rewrite packer_loop_pairs by apply packer_wf_init. reflexivity.
  - rewrite packer_loop_headers. reflexivity.
  - rewrite packer_loop_sequences. reflexivity.
  - apply packer_loop_aligned, packer_wf_init.
Qed.

(** For any budget a batch of two or more pairs is within the budget, and
    a batch that is not empty is within the budget or a single sequence
    longer than the budget. *)
Lemma packer_batches_any_budget (sequences : list (string * string)) (B : Z) (b : batch) :
  In b (create_batched_sequence_datasest sequences B) ->
  ((2 <= List.length (snd b))%nat -> batch_tokens b <= B)
  /\ (snd b <> [] ->
      batch_tokens b <= B \/ exists h s, b = ([h], [s]) /\ B < len s).
Proof.
  intros Hb.
  pose proof (packer_ok B sequences) as Hok.
  pose proof (packer_aligned B sequences) as Hal.
  rewrite Forall_forall in Hok, Hal.
  destruct (Hok b Hb) as [Hnil | [[_ Hle] | [s [Hone Hgt]]]].
  - rewrite Hnil. split; [simpl; lia | congruence].
  - split; [intros _; exact Hle | intros _; left; exact Hle].
  - split.
    + rewrite Hone. simpl. lia.
    + intros _. right. destruct (aligned_singleton b s (Hal b Hb) Hone) as [h Hh].
      exists h, s. split; [exact Hh | exact Hgt].
Qed.

(** C6.  For a budget [B] that is not negative and any input, sorted or
    not, every batch has a total length of at most [B] unless it is a
    single sequence longer than [B]; a batch of two or more pairs is never
    over the budget. *)
Theorem C6_batches_within_budget (sequences : list (string * string)) (B : Z) (b : batch) :
  0 <= B ->
  In b (create_batched_sequence_datasest sequences B) ->
  (batch_tokens b <= B \/ exists h s, b = ([h], [s]) /\ B < len s)
  /\ ((2 <= List.length (batch_pairs b))%nat -> batch_tokens b <= B).
Proof.
  intros HB Hb.
  destruct (packer_batches_any_budget sequences B b Hb) as [Hmulti Hne].
  split.
  - destruct (snd b) as [| s l] eqn:E.
    + left. unfold batch_tokens. rewrite E. simpl. exact HB.
    + apply Hne. discriminate.
  - intros Hlen. apply Hmulti.
    unfold batch_pairs in Hlen. rewrite length_combine in Hlen. lia.
Qed.

Lemma C6_batches_within_budget_witness :
  0 <= 5
  /\ In (["c"], ["AAAAAAA"])
       (create_batched_sequence_datasest [("a", "AA"); ("b", "AAA"); ("c", "AAAAAAA")] 5)
  /\ (batch_tokens (["c"], ["AAAAAAA"]) <= 5
      \/ exists h s, (["c"], ["AAAAAAA"]) = ([h], [s]) /\ 5 < len s)
  /\ ((2 <= List.length (batch_pairs (["c"], ["AAAAAAA"])))%nat
      -> batch_tokens (["c"], ["AAAAAAA"]) <= 5).
Proof.
  split; [lia |]. split; [vm_compute; auto |].
  apply (C6_batches_within_budget [("a", "AA"); ("b", "AAA"); ("c", "AAAAAAA")] 5
           (["c"], ["AAAAAAA"])); [lia | vm_compute; auto].
Defined.

(** An unsorted input: the long sequence in the middle is a batch of its
    own and no batch of several pairs is over the budget. *)
Example packer_unsorted :
  map batch_lengths
    (create_batched_sequence_datasest
       [("a", "AAA"); ("b", "AAAAAAAA"); ("c", "A"); ("d", "AA")] 5)
  = [[3]; [8]; [1; 2]].
Proof. reflexivity. Qed.

(** ** The inference loop: a failing batch *)

Lemma batch_pairs_nonempty (headers sequences : list string) :
  batch_pairs (headers, sequences) <> [] ->
  exists header hs seq ss, headers = header :: hs /\ sequences = seq :: ss.
Proof.
  unfold batch_pairs. simpl.
  destruct headers as [| header hs]; [intros H; exfalso; apply H; reflexivity |].
  destruct sequences as [| seq ss]; [intros H; exfalso; apply H; reflexivity |].
  intros _. exists header, hs, seq, ss. split; reflexivity.
Qed.

(** The handler on a resource-exhaustion error: the batch is skipped and
    only the log grows. *)
Lemma handle_oom (e : exn) (st : loop_state) (b : batch) :
  is_oom e = true -> batch_pairs b <> [] ->
  exists ev, handle_runtime_error e st b = Finished (add_log st ev).
Proof.
  intros Hoom Hne. destruct b as [headers sequences].
  destruct (batch_pairs_nonempty _ _ Hne) as (header & hs & seq & ss & -> & ->).
  unfold is_oom in Hoom. apply andb_prop in Hoom as [_ Hmsg].
  unfold handle_runtime_error.
  destruct (exc_args e) as [| [msg | z |] args]; try discriminate.
  rewrite Hmsg.
  destruct (Z.of_nat (List.length (seq :: ss)) >? 1); eexists; reflexivity.
Qed.

Lemma handle_foreign_string (e : exn) (st : loop_state) (b : batch) (msg : string)
    (args : list pyval) :
  exc_args e = PyStr msg :: args -> startswith msg oom_phrase = false ->
  handle_runtime_error e st b = Aborted e st.
Proof.
  intros Hargs Hmsg. destruct b as [headers sequences].
  unfold handle_runtime_error. rewrite Hargs, Hmsg. reflexivity.
Qed.


Lemma process_batch_raise (fs : file_system) (infer : model) (n : Z) (k : nat)
    (st : loop_state) (b : batch) (e : exn) :
  infer k (snd b) = InferRaise e ->
  process_batch fs infer n k st b
  = if isinstance_RuntimeError e then handle_runtime_error e st b else Aborted e st.
Proof.
  destruct b as [headers sequences]. simpl. intros H.
  unfold process_batch. rewrite H. reflexivity.
Qed.

(** C7 (amended).  When the inference call on a batch that holds at least
    one pair fails with the resource-exhaustion condition, the loop writes
    no file and adds no aggregate entry for the batch, leaves the counter
    as it is, and goes on with the next batch.  When the call fails with an
    error that is not a [RuntimeError], or with a [RuntimeError] whose
    first argument is a string that does not start with the phrase, that
    same error leaves the loop and no further batch is processed. *)
Theorem C7_failed_batch (fs : file_system) (infer : model) (n : Z) (k : nat) (st : loop_state)
    (b : batch) (rest : list batch) (e : exn) :
  infer k (snd b) = InferRaise e ->
  (is_oom e = true -> batch_pairs b <> [] ->
     exists st',
       process_batch fs infer n k st b = Finished st'
       /\ pdb_dir st' = pdb_dir st
       /\ pLDDT_dict st' = pLDDT_dict st
       /\ pTM_dict st' = pTM_dict st
       /\ num_completed st' = num_completed st
       /\ inference_loop fs infer n k (b :: rest) st = inference_loop fs infer n (S k) rest st')
  /\ (is_foreign e = true ->
        process_batch fs infer n k st b = Aborted e st
        /\ inference_loop fs infer n k (b :: rest) st = Aborted e st).
Proof.
  intros Hraise. pose proof (process_batch_raise fs infer n k st b e Hraise) as Hstep. split.
  - intros Hoom Hne.
    destruct (handle_oom e st b Hoom Hne) as [ev Hev].
    assert (Hrt : isinstance_RuntimeError e = true).
    { unfold is_oom in Hoom. apply andb_prop in Hoom as [H _]. exact H. }
    rewrite Hrt, Hev in Hstep.
    exists (add_log st ev). repeat split; try reflexivity; try exact Hstep.
    simpl. rewrite Hstep. reflexivity.
  - intros Hfor.
    assert (Hab : process_batch fs infer n k st b = Aborted e st).
    { rewrite Hstep. destruct (isinstance_RuntimeError e) eqn:Hrt; [| reflexivity].
      unfold is_foreign in Hfor. rewrite Hrt in Hfor. simpl in Hfor.
      destruct (exc_args e) as [| [msg | z |] args] eqn:Hargs; try discriminate.
      apply (handle_foreign_string e st b msg args Hargs).
      destruct (startswith msg oom_phrase); [discriminate | reflexivity]. }
    split; [exact Hab |]. simpl. rewrite Hab. reflexivity.
Qed.

Lemma C7_failed_batch_witness :
  always_oom 0%nat (snd (["h"], ["AAAA"])) = InferRaise oom_error
  /\ is_oom oom_error = true
  /\ batch_pairs (["h"], ["AAAA"]) <> []
  /\ exists st',
       process_batch accepts_all always_oom 1 0 (loop_init ∅) (["h"], ["AAAA"]) = Finished st'
       /\ pdb_dir st' = ∅ /\ pLDDT_dict st' = [] /\ num_completed st' = 0.
Proof.
  split; [reflexivity |]. split; [reflexivity |].
  assert (Hne : batch_pairs (["h"], ["AAAA"]) <> []) by discriminate.
  split; [exact Hne |].
  destruct (C7_failed_batch accepts_all always_oom 1 0
    (loop_init ∅) (["h"], ["AAAA"]) [] oom_error
              eq_refl) as [Hoom _].
  destruct (Hoom eq_refl Hne) as (st' & Hstep & Hdir & Hpl & _ & Hnum & _).
  exists st'. repeat split; assumption.
Defined.

(** C7 as stated fails.  A [RuntimeError] without arguments does not
    reach the caller: an [IndexError] raised by the handler does.  And a
    resource-exhaustion error on the empty batch does not let the loop go
    on: the handler raises an [IndexError] while it logs. *)
Lemma C7_handler_raises :
  let bare := Exn RuntimeError [] in
  let st := loop_init ∅ in
  process_batch accepts_all (fun _ _ => InferRaise bare) 1 0 st (["h"], ["AAAA"])
    = Aborted (index_error "tuple") st
  /\ index_error "tuple" <> bare
  /\ inference_loop accepts_all always_oom 1 0 [([], []); (["h"], ["AAAA"])] st
     = Aborted (index_error "list") st.
Proof. repeat split. intros H. discriminate H. Qed.



(** ** Dictionaries: lookup after update *)

Lemma dict_get_set (V : Type) (d : dict V) (k k' : string) (v : V) :
  dict_get (dict_set d k v) k' = if String.eqb k k' then Some v else dict_get d k'.
Proof.
  induction d as [| [k0 v0] d IH]; simpl.
  - reflexivity.
  - destruct (String.eqb k0 k) eqn:E0; simpl.
    + apply String.eqb_eq in E0. subst k0.
      destruct (String.eqb k k'); reflexivity.
    + destruct (String.eqb k0 k') eqn:E1.
      * apply String.eqb_eq in E1. subst k0. rewrite String.eqb_sym, E0. reflexivity.
      * exact IH.
Qed.

Lemma dict_get_set_eq (V : Type) (d : dict V) (k : string) (v : V) :
  dict_get (dict_set d k v) k = Some v.
Proof. rewrite dict_get_set, String.eqb_refl. reflexivity. Qed.

Lemma dict_get_set_ne (V : Type) (d : dict V) (k k' : string) (v : V) :
  k <> k' -> dict_get (dict_set d k v) k' = dict_get d k'.
Proof.
  intros Hne. rewrite dict_get_set. apply String.eqb_neq in Hne. rewrite Hne. reflexivity.
Qed.

Lemma dict_get_keys (V : Type) (d : dict V) (k : string) :
  In k (dict_keys d) <-> exists v, dict_get d k = Some v.
Proof.
  induction d as [| [k0 v0] d IH]; simpl.
  - split; [contradiction | intros [v Hv]; discriminate].
  - destruct (String.eqb k0 k) eqn:E.
    + apply String.eqb_eq in E. split; [intros _; eauto | intros _; left; exact E].
    + apply String.eqb_neq in E. rewrite <- IH. split; [intros [H | H] | intros H].
      * contradiction.
      * exact H.
      * right. exact H.
Qed.

Lemma dict_mem_keys (V : Type) (d : dict V) (k : string) :
  dict_mem d k = true <-> In k (dict_keys d).
Proof.
  rewrite dict_get_keys. unfold dict_mem. destruct (dict_get d k) as [v |].
  - split; [intros _; eauto | reflexivity].
  - split; [discriminate | intros [v Hv]; discriminate].
Qed.

Lemma dict_keys_set_in (V : Type) (d : dict V) (k k' : string) (v : V) :
  In k' (dict_keys (dict_set d k v)) <-> k' = k \/ In k' (dict_keys d).
Proof.
  rewrite !dict_get_keys, dict_get_set.
  destruct (String.eqb k k') eqn:E.
  - apply String.eqb_eq in E. split; [intros _; left; congruence | intros _; eauto].
  - apply String.eqb_neq in E. split; [intros H; right; exact H | intros [H | H]].
    + congruence.
    + exact H.
Qed.

Lemma dict_keys_set_same (V W : Type) (d : dict V) (d' : dict W) (k : string)
    (v : V) (w : W) :
  dict_keys d = dict_keys d' -> dict_keys (dict_set d k v) = dict_keys (dict_set d' k w).
Proof.
  revert d'. induction d as [| [k0 v0] d IH]; intros [| [k1 w1] d'] Heq;
    simpl in *; try discriminate.
  - reflexivity.
  - injection Heq as -> Heq. destruct (String.eqb k1 k); simpl.
    + rewrite Heq. reflexivity.
    + f_equal. apply IH. exact Heq.
Qed.

Lemma dict_set_fresh (V : Type) (d : dict V) (k : string) (v : V) :
  ~ In k (dict_keys d) -> dict_set d k v = d ++ [(k, v)].
Proof.
  induction d as [| [k0 v0] d IH]; simpl; intros Hnin.
  - reflexivity.
  - destruct (String.eqb k0 k) eqn:E.
    + apply String.eqb_eq in E. exfalso. apply Hnin. left. exact E.
    + f_equal. apply IH. intros H. apply Hnin. right. exact H.
Qed.

Lemma dict_keys_set_nodup (V : Type) (d : dict V) (k : string) (v : V) :
  NoDup (dict_keys d) -> NoDup (dict_keys (dict_set d k v)).
Proof.
  induction d as [| [k0 v0] d IH]; simpl; intros Hnd.
  - constructor; [intros [] | constructor].
  - inversion Hnd as [| x l Hnin Hnd']; subst.
    destruct (String.eqb k0 k) eqn:E; simpl.
    + constructor; assumption.
    + constructor; [| apply IH; exact Hnd'].
      change (~ In k0 (dict_keys (dict_set d k v))).
      rewrite dict_keys_set_in. intros [-> | H].
      * rewrite String.eqb_refl in E. discriminate.
      * apply Hnin. exact H.
Qed.

(** ** The aggregates after a list of completed sequences *)

Section RecordScores.

Variable score : string * string * string * Q * Q -> Q.

Lemma record_scores_app (items items' : list (string * string * string * Q * Q))
    (d : dict Q) :
  record_scores score (items ++ items') d
  = record_scores score items' (record_scores score items d).
Proof. unfold record_scores. apply fold_left_app. Qed.

Lemma record_scores_nodup (items : list (string * string * string * Q * Q)) :
  forall d, NoDup (dict_keys d) -> NoDup (dict_keys (record_scores score items d)).
Proof.
  induction items as [| item items IH]; intros d Hnd; simpl.
  - exact Hnd.
  - apply IH. apply dict_keys_set_nodup. exact Hnd.
Qed.

Lemma record_scores_get (items : list (string * string * string * Q * Q))
    (seq_id : string) :
  forall d,
    dict_get (record_scores score items d) seq_id
    = fold_left
        (fun acc item =>
           if String.eqb (item_id item) seq_id then Some (score item) else acc)
        items (dict_get d seq_id).
Proof.
  induction items as [| item items IH]; intros d; simpl.
  - reflexivity.
  - rewrite IH, dict_get_set. reflexivity.
Qed.

Lemma record_scores_distinct (items : list (string * string * string * Q * Q)) :
  forall d,
    NoDup (map item_id items) ->
    (forall item, In item items -> ~ In (item_id item) (dict_keys d)) ->
    record_scores score items d = d ++ map (fun item => (item_id item, score item)) items.
Proof.
  induction items as [| item items IH]; intros d Hnd Hfresh; simpl.
  - rewrite app_nil_r. reflexivity.
  - inversion Hnd as [| x l Hnin Hnd']; subst.
    rewrite dict_set_fresh by (apply Hfresh; left; reflexivity).
    rewrite IH.
    + rewrite <- app_assoc. reflexivity.
    + exact Hnd'.
    + intros item' Hin. unfold dict_keys. rewrite map_app, in_app_iff. simpl.
      intros [H | [H | []]].
      * apply (Hfresh item'); [right; exact Hin | exact H].
      * apply Hnin. rewrite H. apply in_map. exact Hin.
Qed.

Lemma record_scores_values (items : list (string * string * string * Q * Q)) :
  NoDup (map item_id items) ->
  dict_values (record_scores score items []) = map score items.
Proof.
  intros Hnd. rewrite record_scores_distinct; [| exact Hnd | intros item _ []].
  simpl. unfold dict_values. rewrite map_map. reflexivity.
Qed.

End RecordScores.

(** ** The inference loop: what a finished run has done *)




Lemma loop_inv_init (dir : gmap string string) : loop_inv dir (loop_init dir).
Proof.
  split; [reflexivity |]. intros name. simpl. split.
  - intros H. left. exact H.
  - intros [H | (seq_id & _ & [])]. exact H.
Qed.

Lemma loop_inv_add_log (dir : gmap string string) (st : loop_state) (ev : log_event) :
  loop_inv dir st -> loop_inv dir (add_log st ev).
Proof. intros H. exact H. Qed.

Section FinishedRun.

Variable fs : file_system.
Variable infer : model.
Variable num_sequences : Z.

Lemma recorded_nil (st st' : loop_state) :
  num_completed st' = num_completed st -> pLDDT_dict st' = pLDDT_dict st ->
  pTM_dict st' = pTM_dict st -> pdb_dir st' = pdb_dir st ->
  recorded [] st st'.
Proof.
  intros Hn Hp Ht Hd. unfold recorded. simpl.
  split; [lia |]. split; [exact Hp |]. split; [exact Ht |].
  intros dir [Hk Hf]. split.
  - rewrite Hp, Ht. exact Hk.
  - intros name. rewrite Hd, Hp. apply Hf.
Qed.

Lemma recorded_trans (items items' : list (string * string * string * Q * Q))
    (st st' st'' : loop_state) :
  recorded items st st' -> recorded items' st' st'' -> recorded (items ++ items') st st''.
Proof.
  intros (Hn & Hp & Ht & Hi) (Hn' & Hp' & Ht' & Hi').
  split; [| split; [| split]].
  - rewrite Hn', Hn, length_app. lia.
  - rewrite Hp', Hp, record_scores_app. reflexivity.
  - rewrite Ht', Ht, record_scores_app. reflexivity.
  - intros dir H. apply Hi', Hi, H.
Qed.

Lemma record_prediction_finished (amortized : option Z) (st st' : loop_state)
    (item : string * string * string * Q * Q) :
  record_prediction fs num_sequences amortized st item = Finished st' ->
  recorded [item] st st'.
Proof.
  destruct item as [[[[header seq] pdb_string] plddt] tm].
  unfold record_prediction, first_token.
  destruct (split header) as [| seq_id toks] eqn:E; [discriminate |].
  destruct (fs (pdb_name seq_id)); [discriminate |].
  intros H. injection H as <-.
  assert (Hid : item_id (header, seq, pdb_string, plddt, tm) = seq_id).
  { unfold item_id, seq_id_of. rewrite E. reflexivity. }
  unfold recorded, record_scores.
  cbn [fold_left num_completed pLDDT_dict pTM_dict pdb_dir List.length].
  rewrite Hid. unfold item_plddt, item_ptm.
  split; [lia |]. split; [reflexivity |]. split; [reflexivity |].
  intros dir [Hk Hf]. split; cbn [pLDDT_dict pTM_dict pdb_dir].
  - apply dict_keys_set_same. exact Hk.
  - intros name. rewrite lookup_insert_is_Some'. split.
    + intros [<- | Hs].
      * right. exists seq_id. split; [reflexivity |].
        apply dict_keys_set_in. left. reflexivity.
      * apply Hf in Hs as [Hs | (i & -> & Hi)]; [left; exact Hs |].
        right. exists i. split; [reflexivity |]. apply dict_keys_set_in. right. exact Hi.
    + intros [Hs | (i & -> & Hi)].
      * right. apply Hf. left. exact Hs.
      * apply dict_keys_set_in in Hi as [-> | Hi]; [left; reflexivity |].
        right. apply Hf. right. exists i. split; [reflexivity | exact Hi].
Qed.

Lemma record_predictions_finished (amortized : option Z)
    (items : list (string * string * string * Q * Q)) :
  forall st st',
    record_predictions fs num_sequences amortized items st = Finished st' ->
    recorded items st st'.
Proof.
  induction items as [| item items IH]; intros st st' H; simpl in H.
  - injection H as <-. apply recorded_nil; reflexivity.
  - destruct (record_prediction fs num_sequences amortized st item) as [st1 | e st1] eqn:E;
      [| discriminate].
    change (item :: items) with ([item] ++ items).
    eapply recorded_trans; [apply (record_prediction_finished _ _ _ _ E) | apply IH, H].
Qed.

Lemma handle_runtime_error_finished (e : exn) (st st' : loop_state) (b : batch) :
  handle_runtime_error e st b = Finished st' -> exists ev, st' = add_log st ev.
Proof.
  destruct b as [headers sequences]. unfold handle_runtime_error.
  destruct (exc_args e) as [| [msg | z |] args]; try discriminate.
  destruct (startswith msg oom_phrase); [| discriminate].
  destruct (Z.of_nat (List.length sequences) >? 1).
  - intros H. injection H as <-. eexists. reflexivity.
  - destruct headers as [| header hs]; [discriminate |].
    destruct sequences as [| seq ss]; [discriminate |].
    intros H. injection H as <-. eexists. reflexivity.
Qed.

Lemma process_batch_finished (k : nat) (st st' : loop_state) (b : batch) :
  process_batch fs infer num_sequences k st b = Finished st' ->
  recorded (batch_items infer k b) st st'.
Proof.
  destruct b as [headers sequences]. unfold process_batch, batch_items.
  cbn [fst snd]. destruct (infer k sequences) as [out | e].
  - destruct headers as [| header hs]; [discriminate |].
    apply record_predictions_finished.
  - destruct (isinstance_RuntimeError e); [| discriminate].
    intros H. apply handle_runtime_error_finished in H as [ev ->].
    apply recorded_nil; reflexivity.
Qed.

Lemma inference_loop_finished (batches : list batch) :
  forall k st st',
    inference_loop fs infer num_sequences k batches st = Finished st' ->
    recorded (completed_items infer k batches) st st'.
Proof.
  induction batches as [| b batches IH]; intros k st st' H; simpl in H |- *.
  - injection H as <-. apply recorded_nil; reflexivity.
  - destruct (process_batch fs infer num_sequences k st b) as [st1 | e st1] eqn:E;
      [| discriminate].
    eapply recorded_trans; [apply (process_batch_finished _ _ _ _ E) | apply IH, H].
Qed.

End FinishedRun.

Lemma bind_returned {A B : Type} (m : outcome A) (k : A -> outcome B) (b : B) :
  bind m k = Returned b -> exists a, m = Returned a /\ k a = Returned b.
Proof. destruct m as [a | e]; simpl; [eauto | discriminate]. Qed.


(** ** Completion: the claims *)

(** C2 (amended).  When no sequence has completed, the counter is zero and
    both aggregates are empty at the end of the loop; the average is then
    computed all the same, as 0 divided by 0: the completion step raises a
    division-by-zero error and [run] ends with it, reporting no average
    and leaving the FASTA file as it was. *)
Theorem C2_no_completed_sequence_divides_by_zero (fs : file_system) (infer : model)
    (entries : list (string * string)) (lines : list string) (B : Z)
    (dir : gmap string string) (st : loop_state) :
  inference_loop fs infer (Z.of_nat (List.length (sorted_by_len entries))) 0
    (create_batched_sequence_datasest (sorted_by_len entries) B) (loop_init dir)
  = Finished st ->
  completed_items infer 0 (create_batched_sequence_datasest (sorted_by_len entries) B) = [] ->
  num_completed st = 0
  /\ pLDDT_dict st = [] /\ pTM_dict st = []
  /\ averages st = Raised zero_division_error
  /\ run fs infer entries lines B dir = Raised zero_division_error.
Proof.
  intros Hloop Hnone.
  destruct (inference_loop_finished _ _ _ _ _ _ _ Hloop) as (Hn & Hp & Ht & _).
  rewrite Hnone in Hn, Hp, Ht. simpl in Hn, Hp, Ht.
  assert (Havg : averages st = Raised zero_division_error).
  { unfold averages, py_div. rewrite Hn. reflexivity. }
  repeat split; try assumption.
  unfold run. rewrite Hloop. simpl. rewrite Havg. reflexivity.
Qed.

Lemma C2_no_completed_sequence_divides_by_zero_witness :
  inference_loop accepts_all always_oom (Z.of_nat (List.length (sorted_by_len [("a", "AAAA")]))) 0
    (create_batched_sequence_datasest (sorted_by_len [("a", "AAAA")]) 1024) (loop_init ∅)
  = Finished (add_log (loop_init ∅) (LogOOMSequence "a" 4))
  /\ completed_items always_oom 0
       (create_batched_sequence_datasest (sorted_by_len [("a", "AAAA")]) 1024) = []
  /\ run accepts_all always_oom [("a", "AAAA")] [">a"; "AAAA"] 1024 ∅
    = Raised zero_division_error.
Proof.
  split; [reflexivity |]. split; [reflexivity |].
  apply (C2_no_completed_sequence_divides_by_zero accepts_all always_oom [("a", "AAAA")]
           [">a"; "AAAA"] 1024 ∅ (add_log (loop_init ∅) (LogOOMSequence "a" 4)));
    reflexivity.
Defined.

(** C2 as stated fails: when the only batch runs out of memory, [run] does
    not report a missing average, it raises [ZeroDivisionError]. *)
Lemma C2_division_by_zero_reached :
  run accepts_all always_oom [("a", "AAAA")] [">a"; "AAAA"] 1024 ∅ = Raised zero_division_error
  /\ exc_class zero_division_error = ZeroDivisionError.
Proof. split; reflexivity. Qed.

(** C9 (amended).  After a finished loop the counter is the number of all
    completed sequences, while each aggregate holds one entry per distinct
    id, the score of the last completed sequence with that id; the reported
    averages divide the sum of these entries by that counter.  When the ids
    of the completed sequences are all distinct, the reported averages are
    the arithmetic means over all completed sequences; with a repeated id
    they can differ from the means. *)
Theorem C9_averages_over_distinct_ids :
  (forall (fs : file_system) (infer : model) (n : Z)
    (batches : list batch) (dir : gmap string string)
          (st : loop_state),
     inference_loop fs infer n 0 batches (loop_init dir) = Finished st ->
     let items := completed_items infer 0 batches in
     num_completed st = Z.of_nat (List.length items)
     /\ NoDup (dict_keys (pLDDT_dict st)) /\ NoDup (dict_keys (pTM_dict st))
     /\ (forall seq_id, dict_get (pLDDT_dict st) seq_id = last_score item_plddt seq_id items)
     /\ (forall seq_id, dict_get (pTM_dict st) seq_id = last_score item_ptm seq_id items)
     /\ averages st
        = (a <- py_div (py_sum (dict_values (pLDDT_dict st))) (Z.of_nat (List.length items)) ;;
           b <- py_div (py_sum (dict_values (pTM_dict st))) (Z.of_nat (List.length items)) ;;
           Returned (a, b))
     /\ (NoDup (map item_id items) ->
         averages st
         = (a <- mean_of item_plddt items ;; b <- mean_of item_ptm items ;;
            Returned (a, b))))
  /\ (exists (st : loop_state) (avg : Q * Q) (mean : Q),
        inference_loop accepts_all two_scores 2 0 [(["x a"; "x b"], ["AA"; "CC"])] (loop_init ∅)
        = Finished st
        /\ averages st = Returned avg
        /\ mean_of item_plddt
             (completed_items two_scores 0 [(["x a"; "x b"], ["AA"; "CC"])])
           = Returned mean
        /\ (fst avg == 45 # 1)%Q /\ (mean == 85 # 1)%Q /\ ~ (fst avg == mean)%Q).
Proof.
  split.
  - intros fs infer n batches dir st Hloop items.
    destruct (inference_loop_finished _ _ _ _ _ _ _ Hloop) as (Hn & Hp & Ht & _).
    fold items in Hn, Hp, Ht. simpl in Hn, Hp, Ht.
    split; [exact Hn |].
    split; [rewrite Hp; apply record_scores_nodup; constructor |].
    split; [rewrite Ht; apply record_scores_nodup; constructor |].
    split; [intros seq_id; rewrite Hp; apply record_scores_get |].
    split; [intros seq_id; rewrite Ht; apply record_scores_get |].
    split; [unfold averages; rewrite Hn; reflexivity |].
    intros Hnd. unfold averages, mean_of.
    rewrite Hn, Hp, Ht, !record_scores_values by exact Hnd. reflexivity.
  - eexists. eexists. eexists.
    split; [reflexivity |]. split; [reflexivity |]. split; [reflexivity |].
    simpl. repeat split; try reflexivity. intros H. discriminate H.
Qed.

Lemma C9_averages_over_distinct_ids_witness :
  NoDup (map item_id (completed_items two_scores 0 [(["a"; "b"], ["AA"; "CC"])]))
  /\ exists st,
       inference_loop accepts_all two_scores 2 0 [(["a"; "b"], ["AA"; "CC"])]
         (loop_init ∅) = Finished st
       /\ averages st
          = (a <- mean_of item_plddt
                    (completed_items two_scores 0 [(["a"; "b"], ["AA"; "CC"])]) ;;
             b <- mean_of item_ptm
                    (completed_items two_scores 0 [(["a"; "b"], ["AA"; "CC"])]) ;;
             Returned (a, b)).
Proof.
  assert (Hnd : NoDup (map item_id
                         (completed_items two_scores 0 [(["a"; "b"], ["AA"; "CC"])]))).
  { simpl. constructor; [simpl; intros [H | []]; discriminate H |].
    constructor; [intros [] | constructor]. }
  split; [exact Hnd |].
  eexists. split; [reflexivity |].
  destruct C9_averages_over_distinct_ids as [Hall _].
  destruct (Hall accepts_all two_scores 2 [(["a"; "b"], ["AA"; "CC"])] ∅ _ eq_refl)
    as (_ & _ & _ & _ & _ & _ & Hmean).
  apply Hmean. exact Hnd.
Defined.

(** C9 as stated fails: distinct ids are not needed for the reported
    averages to be the means.  Two completed sequences share the id [x];
    the first scores 0 and the second 90 and 1/2, so the sum of the entries
    that are left, 90 and 1/2, is also the sum of all scores, and both
    reported averages are the means. *)
Lemma C9_equal_with_repeated_id :
  exists (st : loop_state) (avg : Q * Q),
    inference_loop accepts_all zero_then_ninety 2 0 [(["x a"; "x b"], ["AA"; "CC"])]
      (loop_init ∅)
    = Finished st
    /\ map item_id (completed_items zero_then_ninety 0 [(["x a"; "x b"], ["AA"; "CC"])])
       = ["x"; "x"]
    /\ ~ NoDup (map item_id
                  (completed_items zero_then_ninety 0 [(["x a"; "x b"], ["AA"; "CC"])]))
    /\ averages st = Returned avg
    /\ (a <- mean_of item_plddt
               (completed_items zero_then_ninety 0 [(["x a"; "x b"], ["AA"; "CC"])]) ;;
        b <- mean_of item_ptm
               (completed_items zero_then_ninety 0 [(["x a"; "x b"], ["AA"; "CC"])]) ;;
        Returned (a, b))
       = Returned avg.
Proof.
  eexists. eexists. split; [reflexivity |]. split; [reflexivity |].
  split; [| split; reflexivity].
  intros Hnd. inversion Hnd as [| x l Hnin _]; subst. apply Hnin. left. reflexivity.
Qed.

(** ** Annotation: the claims *)







(** * Further properties *)

(** ** The batch packer *)

Lemma packer_loop_head (B : Z) (l : list (string * string)) :
  forall st, exists b r suffix,
    packer_loop B l st = b :: r /\ snd b = batch_sequences st ++ suffix.
Proof.
  induction l as [| [header seq] l IH]; intros st; simpl.
  - exists (batch_headers st, batch_sequences st), [], []. split; [reflexivity |].
    simpl. rewrite app_nil_r. reflexivity.
  - destruct (len seq + num_tokens st <=? B).
    + destruct (IH (packer_append st header seq)) as (b & r & suffix & Heq & Hsnd).
      exists b, r, (seq :: suffix). split; [exact Heq |].
      rewrite Hsnd. simpl. rewrite <- app_assoc. reflexivity.
    + exists (batch_headers st, batch_sequences st),
        (packer_loop B l (packer_append packer_init header seq)), [].
      split; [reflexivity |]. simpl. rewrite app_nil_r. reflexivity.
Qed.

(** The generator yields at least one batch; every batch after the first
    holds at least one pair; and the first batch is empty exactly when the
    input is empty or its first sequence is longer than the budget. *)
Theorem packer_first_batch_empty_iff (sequences : list (string * string)) (B : Z) :
  exists b0 rest,
    create_batched_sequence_datasest sequences B = b0 :: rest
    /\ Forall (fun b => batch_pairs b <> []) rest
    /\ (b0 = ([], [])
        <-> sequences = [] \/ exists h s l, sequences = (h, s) :: l /\ B < len s).
Proof.
  destruct (packer_first_and_rest B sequences) as (b0 & rest & Heq & Hrest).
  exists b0, rest. split; [exact Heq |]. split.
  - pose proof (packer_aligned B sequences) as Hal. rewrite Heq in Hal.
    inversion Hal as [| x l _ Hal']; subst.
    rewrite Forall_forall in Hrest, Hal'. apply Forall_forall. intros b Hb Hnil.
    specialize (Hrest b Hb). specialize (Hal' b Hb).
    destruct b as [hs ss]. unfold aligned, batch_pairs in *. simpl in *.
    destruct ss as [| s ss]; [apply Hrest; reflexivity |].
    destruct hs as [| h hs]; [discriminate | discriminate].
  - destruct sequences as [| [h s] l].
    + rewrite packer_empty_input in Heq. injection Heq as <- <-.
      split; [intros _; left; reflexivity | reflexivity].
    + unfold create_batched_sequence_datasest in Heq. simpl in Heq.
      destruct (len s + 0 <=? B) eqn:E.
      * destruct (packer_loop_head B l (packer_append packer_init h s))
          as (b & r & suffix & Hb & Hsnd).
        rewrite Hb in Heq. injection Heq as <- <-. split.
        -- intros ->. simpl in Hsnd. discriminate.
        -- intros [Hnil | (h' & s' & l' & Hcons & Hgt)]; [discriminate |].
           injection Hcons as <- <- <-. lia.
      * injection Heq as <- <-. split; [| reflexivity].
        intros _. right. exists h, s, l. split; [reflexivity | lia].
Qed.

Lemma greedy_loop (B : Z) (l : list (string * string)) :
  forall st, packer_wf st -> greedy B (packer_loop B l st).
Proof.
  induction l as [| [header seq] l IH]; intros st Hwf.
  - simpl. exact I.
  - cbn [packer_loop]. destruct (len seq + num_tokens st <=? B) eqn:E.
    + apply IH. auto with packer.
    + pose proof (IH (packer_append packer_init header seq)
                    (packer_wf_append _ _ _ packer_wf_init)) as Hrest.
      destruct (packer_loop_head B l (packer_append packer_init header seq))
        as (b & r & suffix & Hb & Hsnd).
      rewrite Hb in Hrest |- *. cbn [greedy]. split; [| exact Hrest].
      exists seq, suffix. split; [exact Hsnd |].
      unfold batch_tokens. simpl. destruct Hwf as [_ Htok]. lia.
Qed.

(** The packing is greedy: whenever one batch follows another, the first
    sequence of the later batch added to the total of the earlier batch is
    over the budget. *)
Theorem packer_is_greedy (sequences : list (string * string)) (B : Z) :
  greedy B (create_batched_sequence_datasest sequences B).
Proof. apply greedy_loop, packer_wf_init. Qed.

Lemma tokens_app (l l' : list string) : tokens (l ++ l') = tokens l + tokens l'.
Proof. induction l as [| x l IH]; simpl; lia. Qed.

Lemma packer_loop_all_fit (B : Z) (l : list (string * string)) :
  forall st, packer_wf st ->
    tokens (batch_sequences st) + tokens (map snd l) <= B ->
    packer_loop B l st
    = [(batch_headers st ++ map fst l, batch_sequences st ++ map snd l)].
Proof.
  induction l as [| [header seq] l IH]; intros st Hwf Hle; simpl in *.
  - rewrite !app_nil_r. reflexivity.
  - pose proof (tokens_nonneg (map snd l)) as Hnn. destruct Hwf as [Hlen Htok].
    destruct (len seq + num_tokens st <=? B) eqn:E; [| lia].
    rewrite IH.
    + simpl. rewrite <- !app_assoc. reflexivity.
    + apply packer_wf_append. split; assumption.
    + simpl. rewrite tokens_snoc. lia.
Qed.

(** An input whose sequences fit the budget together comes out as a
    single batch that holds all of it. *)
Theorem packer_single_batch (sequences : list (string * string)) (B : Z) :
  tokens (map snd sequences) <= B ->
  create_batched_sequence_datasest sequences B = [(map fst sequences, map snd sequences)].
Proof.
  intros Hle. unfold create_batched_sequence_datasest.
  rewrite packer_loop_all_fit; [reflexivity | apply packer_wf_init | simpl; lia].
Qed.

Lemma packer_single_batch_witness :
  tokens (map snd [("a", "AA"); ("b", "AAA")]) <= 5
  /\ create_batched_sequence_datasest [("a", "AA"); ("b", "AAA")] 5
     = [(map fst [("a", "AA"); ("b", "AAA")], map snd [("a", "AA"); ("b", "AAA")])].
Proof.
  split; [vm_compute; discriminate |].
  apply (packer_single_batch [("a", "AA"); ("b", "AAA")] 5). vm_compute. discriminate.
Defined.

Lemma packer_loop_all_oversized (B : Z) (l : list (string * string)) :
  forall st, 0 <= num_tokens st ->
    Forall (fun p => B < len (snd p)) l ->
    packer_loop B l st
    = (batch_headers st, batch_sequences st) :: map (fun p => ([fst p], [snd p])) l.
Proof.
  induction l as [| [header seq] l IH]; intros st Hnn Hall; simpl.
  - reflexivity.
  - inversion Hall as [| x l' Hgt Hall']; subst. simpl in Hgt.
    destruct (len seq + num_tokens st <=? B) eqn:E; [lia |].
    rewrite IH; [reflexivity | simpl; pose proof (len_nonneg seq); lia | exact Hall'].
Qed.

(** When every sequence is longer than the budget, the generator yields
    an empty batch and then one batch per pair, in the order of the input. *)
Theorem packer_all_oversized (sequences : list (string * string)) (B : Z) :
  Forall (fun p => B < len (snd p)) sequences ->
  create_batched_sequence_datasest sequences B
  = ([], []) :: map (fun p => ([fst p], [snd p])) sequences.
Proof.
  intros Hall. unfold create_batched_sequence_datasest.
  rewrite packer_loop_all_oversized; [reflexivity | simpl; lia | exact Hall].
Qed.

Lemma packer_all_oversized_witness :
  Forall (fun p => 2 < len (snd p)) [("a", "AAA"); ("b", "AAAA")]
  /\ create_batched_sequence_datasest [("a", "AAA"); ("b", "AAAA")] 2
     = ([], []) :: map (fun p => ([fst p], [snd p])) [("a", "AAA"); ("b", "AAAA")].
Proof.
  assert (H : Forall (fun p => 2 < len (snd p)) [("a", "AAA"); ("b", "AAAA")]).
  { repeat constructor. }
  split; [exact H |]. apply (packer_all_oversized [("a", "AAA"); ("b", "AAAA")] 2 H).
Defined.

Lemma packer_loops_agree (B : Z) (l : list (string * string)) :
  forall st, 0 < num_tokens st ->
    Forall (fun p => snd p <> EmptyString) l ->
    packer_loop B l st = packer_loop_commented B l st.
Proof.
  induction l as [| [header seq] l IH]; intros st Hpos Hall; simpl.
  - reflexivity.
  - inversion Hall as [| x l' Hne Hall']; subst. simpl in Hne.
    assert (Hlen : 0 < len seq).
    { pose proof (len_nonneg seq). destruct (Z.eq_dec (len seq) 0) as [H0 | H0]; [| lia].
      apply len_zero in H0. contradiction. }
    destruct (len seq + num_tokens st <=? B) eqn:E.
    + replace (len seq + num_tokens st >? B) with false by (symmetry; lia). simpl.
      apply IH; [simpl; lia | exact Hall'].
    + replace (len seq + num_tokens st >? B) with true by (symmetry; lia).
      replace (num_tokens st >? 0) with true by (symmetry; lia). simpl.
      f_equal. apply IH; [simpl; lia | exact Hall'].
Qed.

(** The active loop against the commented-out loop of lines 70-76, for an
    input without empty sequences: both yield the same batches, except that
    the active loop yields one more batch, an empty one, at the front when
    the first sequence is longer than the budget. *)
Theorem packer_against_commented_loop (sequences : list (string * string)) (B : Z) :
  Forall (fun p => snd p <> EmptyString) sequences ->
  create_batched_sequence_datasest sequences B
  = match sequences with
    | (_, s) :: _ =>
        if len s <=? B then packer_loop_commented B sequences packer_init
        else ([], []) :: packer_loop_commented B sequences packer_init
    | [] => packer_loop_commented B sequences packer_init
    end.
Proof.
  intros Hall. unfold create_batched_sequence_datasest.
  destruct sequences as [| [h s] l]; [reflexivity |].
  inversion Hall as [| x l' Hne Hall']; subst. simpl in Hne.
  assert (Hlen : 0 < len s).
  { pose proof (len_nonneg s). destruct (Z.eq_dec (len s) 0) as [H0 | H0]; [| lia].
    apply len_zero in H0. contradiction. }
  simpl. replace (len s + 0) with (len s) by lia.
  rewrite andb_false_r.
  destruct (len s <=? B); [| f_equal]; apply packer_loops_agree; simpl; try lia; exact Hall'.
Qed.

Lemma packer_against_commented_loop_witness :
  Forall (fun p => snd p <> EmptyString) [("a", "AAAA"); ("b", "AA")]
  /\ create_batched_sequence_datasest [("a", "AAAA"); ("b", "AA")] 3
     = ([], []) :: packer_loop_commented 3 [("a", "AAAA"); ("b", "AA")] packer_init.
Proof.
  assert (H : Forall (fun p => snd p <> EmptyString) [("a", "AAAA"); ("b", "AA")]).
  { repeat constructor; discriminate. }
  split; [exact H |].
  apply (packer_against_commented_loop [("a", "AAAA"); ("b", "AA")] 3 H).
Defined.

(** ** Sorting the entries (line 180) *)

Lemma insert_by_len_perm (x : string * string) (l : list (string * string)) :
  Permutation (x :: l) (insert_by_len x l).
Proof.
  induction l as [| y l IH]; simpl.
  - apply Permutation_refl.
  - destruct (len (snd y) <=? len (snd x)).
    + eapply perm_trans; [apply perm_swap | apply perm_skip, IH].
    + apply Permutation_refl.
Qed.

Lemma insert_by_len_sorted (x : string * string) (l : list (string * string)) :
  StronglySorted le_len l -> StronglySorted le_len (insert_by_len x l).
Proof.
  induction l as [| y l IH]; simpl; intros Hs.
  - constructor; constructor.
  - inversion Hs as [| y' l' Hs' Hall]; subst.
    destruct (len (snd y) <=? len (snd x)) eqn:E.
    + constructor; [apply IH, Hs' |].
      apply (Permutation_Forall (insert_by_len_perm x l)).
      constructor; [unfold le_len; lia | exact Hall].
    + constructor; [exact Hs |].
      constructor; [unfold le_len; lia |].
      eapply Forall_impl; [| exact Hall]. unfold le_len. simpl. intros z Hz. lia.
Qed.

Lemma filter_none {A : Type} (f : A -> bool) (l : list A) :
  (forall z, In z l -> f z = false) -> filter f l = [].
Proof.
  induction l as [| y l IH]; simpl; intros H; [reflexivity |].
  rewrite (H y) by (left; reflexivity). apply IH. intros z Hz. apply H. right. exact Hz.
Qed.

Lemma insert_by_len_of_len (n : Z) (x : string * string) (l : list (string * string)) :
  StronglySorted le_len l ->
  of_len n (insert_by_len x l) = of_len n l ++ of_len n [x].
Proof.
  unfold of_len. induction l as [| y l IH]; simpl; intros Hs.
  - reflexivity.
  - inversion Hs as [| y' l' Hs' Hall]; subst.
    destruct (len (snd y) <=? len (snd x)) eqn:E; simpl.
    + rewrite IH by exact Hs'. destruct (len (snd y) =? n); reflexivity.
    + destruct (len (snd x) =? n) eqn:Ex.
      * assert (Hnone : filter (fun z => len (snd z) =? n) (y :: l) = []).
        { apply filter_none. intros z Hz. apply Z.eqb_neq.
          assert (Hle : len (snd y) <= len (snd z)).
          { destruct Hz as [<- | Hz]; [lia |].
            rewrite Forall_forall in Hall. apply (Hall z Hz). }
          lia. }
        simpl in Hnone. rewrite Hnone. reflexivity.
      * rewrite app_nil_r. reflexivity.
Qed.

Lemma sorted_fold (l : list (string * string)) :
  forall acc, StronglySorted le_len acc ->
    Permutation (acc ++ l) (fold_left (fun acc x => insert_by_len x acc) l acc)
    /\ StronglySorted le_len (fold_left (fun acc x => insert_by_len x acc) l acc)
    /\ forall n,
         of_len n (fold_left (fun acc x => insert_by_len x acc) l acc)
         = of_len n acc ++ of_len n l.
Proof.
  induction l as [| x l IH]; intros acc Hs; simpl.
  - split; [rewrite app_nil_r; apply Permutation_refl |]. split; [exact Hs |].
    intros n. unfold of_len. simpl. rewrite app_nil_r. reflexivity.
  - destruct (IH (insert_by_len x acc) (insert_by_len_sorted x acc Hs))
      as (Hperm & Hsorted & Hstable).
    split; [| split; [exact Hsorted |]].
    + eapply perm_trans; [| exact Hperm].
      eapply perm_trans; [apply Permutation_sym, Permutation_middle |].
      change (x :: acc ++ l) with ((x :: acc) ++ l).
      apply Permutation_app_tail, insert_by_len_perm.
    + intros n. rewrite Hstable, insert_by_len_of_len by exact Hs.
      rewrite <- app_assoc. unfold of_len. simpl.
      destruct (len (snd x) =? n); reflexivity.
Qed.

Lemma sorted_by_len_perm (entries : list (string * string)) :
  Permutation entries (sorted_by_len entries).
Proof. destruct (sorted_fold entries [] (SSorted_nil _)) as (H & _). exact H. Qed.

Lemma sorted_by_len_sorted (entries : list (string * string)) :
  StronglySorted le_len (sorted_by_len entries).
Proof. destruct (sorted_fold entries [] (SSorted_nil _)) as (_ & H & _). exact H. Qed.

(** [sorted] by sequence length: the result is a rearrangement of the
    entries, ascending in length, and entries of equal length keep the
    order they had in the file. *)
Theorem sorted_by_len_stable (entries : list (string * string)) :
  Permutation entries (sorted_by_len entries)
  /\ StronglySorted le_len (sorted_by_len entries)
  /\ forall n, of_len n (sorted_by_len entries) = of_len n entries.
Proof.
  destruct (sorted_fold entries [] (SSorted_nil _)) as (Hperm & Hsorted & Hstable).
  split; [exact Hperm |]. split; [exact Hsorted |].
  intros n. exact (Hstable n).
Qed.

(** The batches that [run] hands to the model, read in order, are the
    entries sorted by length: within a batch and from one batch to the next
    the sequences never get shorter. *)
Theorem run_batches_ascending (entries : list (string * string)) (B : Z) :
  StronglySorted le_len
    (flat_map batch_pairs
       (create_batched_sequence_datasest (sorted_by_len entries) B))
  /\ Permutation entries
       (flat_map batch_pairs
          (create_batched_sequence_datasest (sorted_by_len entries) B)).
Proof.
  unfold create_batched_sequence_datasest.
  rewrite packer_loop_pairs by apply packer_wf_init. simpl.
  split; [apply sorted_by_len_sorted | apply sorted_by_len_perm].
Qed.

(** ** The inference loop: a batch that the model answers *)

Lemma zip5_length (hs ss ps : list string) (ms ts : list Q) :
  List.length (zip5 hs ss ps ms ts)
  = Nat.min (List.length hs)
      (Nat.min (List.length ss)
         (Nat.min (List.length ps) (Nat.min (List.length ms) (List.length ts)))).
Proof.
  revert ss ps ms ts.
  induction hs as [| h hs IH]; intros [| s ss] [| p ps] [| m ms] [| t ts];
    simpl; try reflexivity; try lia.
  rewrite IH. reflexivity.
Qed.

Lemma zip5_headers (hs ss ps : list string) (ms ts : list Q) (P : string -> Prop) :
  Forall P hs -> Forall (fun item => P (item_header item)) (zip5 hs ss ps ms ts).
Proof.
  revert ss ps ms ts.
  induction hs as [| h hs IH]; intros [| s ss] [| p ps] [| m ms] [| t ts] Hall;
    simpl; try constructor.
  - inversion Hall; assumption.
  - apply IH. inversion Hall; assumption.
Qed.

Lemma record_prediction_progress (fs : file_system) (n : Z) (amortized : option Z)
    (st : loop_state) (item : string * string * string * Q * Q) :
  item_failure fs item = None ->
  exists st', record_prediction fs n amortized st item = Finished st'.
Proof.
  destruct item as [[[[header seq] pdb_string] plddt] tm].
  unfold item_failure, header_failure, record_prediction. simpl.
  destruct (first_token header) as [seq_id | e]; [| discriminate].
  intros ->. eexists. reflexivity.
Qed.

Lemma record_prediction_failure (fs : file_system) (n : Z) (amortized : option Z)
    (st : loop_state) (item : string * string * string * Q * Q) (e : exn) :
  item_failure fs item = Some e ->
  record_prediction fs n amortized st item = Aborted e st.
Proof.
  destruct item as [[[[header seq] pdb_string] plddt] tm].
  unfold item_failure, header_failure, record_prediction. simpl.
  destruct (first_token header) as [seq_id | e'].
  - intros ->. reflexivity.
  - intros H. injection H as ->. reflexivity.
Qed.

Lemma record_predictions_progress (fs : file_system) (n : Z) (amortized : option Z)
    (items : list (string * string * string * Q * Q)) :
  forall st,
    Forall (fun item => item_failure fs item = None) items ->
    exists st', record_predictions fs n amortized items st = Finished st'.
Proof.
  induction items as [| item items IH]; intros st Hall; simpl.
  - eexists. reflexivity.
  - inversion Hall as [| x l Hitem Hall']; subst.
    destruct (record_prediction_progress fs n amortized st item Hitem) as [st1 ->].
    apply IH. exact Hall'.
Qed.

(** When the model answers a batch that is not empty, whose headers all
    hold an id and whose files the file system takes, the pass completes;
    the counter grows by the length of the shortest of the five lists that
    the inner loop zips, so sequences for which the model gave no structure
    or score are passed over without an error. *)
Theorem answered_batch_completes (fs : file_system) (infer : model) (n : Z) (k : nat)
    (st : loop_state) (headers sequences : list string) (out : inference_output) :
  infer k sequences = InferOk out ->
  headers <> [] ->
  Forall (fun header => header_failure fs header = None) headers ->
  exists st',
    process_batch fs infer n k st (headers, sequences) = Finished st'
    /\ num_completed st'
       = num_completed st
         + Z.of_nat
             (Nat.min (List.length headers)
                (Nat.min (List.length sequences)
                   (Nat.min (List.length (pdbs out))
                      (Nat.min (List.length (mean_plddt out)) (List.length (ptm out))))))
    /\ forall seq_id,
         In seq_id (dict_keys (pLDDT_dict st'))
         <-> In seq_id (dict_keys (pLDDT_dict st))
             \/ In seq_id
                  (map item_id
                     (zip5 headers sequences (pdbs out) (mean_plddt out) (ptm out))).
Proof.
  intros Hinfer Hne Hall.
  assert (Hstep : exists st',
             process_batch fs infer n k st (headers, sequences) = Finished st').
  { unfold process_batch. rewrite Hinfer.
    destruct headers as [| h hs]; [congruence |].
    apply record_predictions_progress.
    apply (zip5_headers _ _ _ _ _ (fun header => header_failure fs header = None)).
    exact Hall. }
  destruct Hstep as [st' Hstep]. exists st'. split; [exact Hstep |].
  destruct (process_batch_finished fs infer n k st st' (headers, sequences) Hstep)
    as (Hn & Hp & _ & _).
  unfold batch_items in Hn, Hp. simpl in Hn, Hp. rewrite Hinfer in Hn, Hp.
  split; [rewrite Hn, zip5_length; reflexivity |].
  intros seq_id. rewrite Hp. clear.
  generalize (pLDDT_dict st).
  induction (zip5 headers sequences (pdbs out) (mean_plddt out) (ptm out))
    as [| item items IH]; intros d; simpl.
  - split; [intros H; left; exact H | intros [H | []]; exact H].
  - unfold record_scores in IH |- *. simpl. rewrite IH, dict_keys_set_in. split.
    + intros [[-> | H] | H];
        [right; left; reflexivity | left; exact H | right; right; exact H].
    + intros [H | [<- | H]];
        [left; right; exact H | left; left; reflexivity | right; exact H].
Qed.

Lemma answered_batch_completes_witness :
  two_scores 0%nat ["AA"; "CC"; "GG"]
  = InferOk {| pdbs := ["ATOM"; "ATOM"]; mean_plddt := [80 # 1; 90 # 1];
               ptm := [1 # 2; 7 # 10] |}
  /\ Forall (fun header => header_failure flat_directory header = None) ["a"; "b"; "c"]
  /\ exists st',
       process_batch flat_directory two_scores 3 0 (loop_init ∅)
         (["a"; "b"; "c"], ["AA"; "CC"; "GG"])
       = Finished st'
       /\ num_completed st' = 2.
Proof.
  split; [reflexivity |].
  assert (H : Forall (fun header => header_failure flat_directory header = None)
                ["a"; "b"; "c"]) by (repeat constructor).
  split; [exact H |].
  destruct (answered_batch_completes flat_directory two_scores 3 0 (loop_init ∅)
              ["a"; "b"; "c"] ["AA"; "CC"; "GG"] _ eq_refl)
    as (st' & Hstep & Hn & _).
  - discriminate.
  - exact H.
  - exists st'. split; [exact Hstep | exact Hn].
Defined.

(** The inner loop stops at the first sequence of the batch whose header
    holds no id, with the [IndexError] of [header.split()[0]], or whose
    file the file system refuses, with the error of [write_text]; that
    sequence is not counted and gets no aggregate entry, and what the
    sequences before it have written and recorded stays. *)
Theorem first_failure_aborts (fs : file_system) (n : Z) (amortized : option Z)
    (st : loop_state) (before after : list (string * string * string * Q * Q))
    (item : string * string * string * Q * Q) (e : exn) :
  Forall (fun item => item_failure fs item = None) before ->
  item_failure fs item = Some e ->
  exists st',
    record_predictions fs n amortized (before ++ item :: after) st = Aborted e st'
    /\ recorded before st st'.
Proof.
  intros Hbefore Hfail.
  destruct (record_predictions_progress fs n amortized before st Hbefore) as [st' Hst'].
  exists st'.
  split; [| apply (record_predictions_finished fs n amortized before st st' Hst')].
  revert st Hst'. clear Hbefore.
  induction before as [| x before IH]; intros st Hst'; simpl in *.
  - injection Hst' as <-. rewrite (record_prediction_failure fs n amortized st item e Hfail).
    reflexivity.
  - destruct (record_prediction fs n amortized st x) as [st1 | e1 st1]; [| discriminate].
    apply IH. exact Hst'.
Qed.

Lemma first_failure_aborts_witness :
  Forall (fun item => item_failure flat_directory item = None)
    [("a", "AA", "ATOM", 80 # 1, 1 # 2)]
  /\ item_failure flat_directory ("x/y", "CC", "ATOM", 90 # 1, 1 # 2)
     = Some (Exn FileNotFoundError [PyInt 2; PyStr "No such file or directory"])
  /\ item_failure flat_directory (" ", "CC", "ATOM", 90 # 1, 1 # 2)
     = Some (index_error "list")
  /\ exists st',
       record_predictions flat_directory 2 None
         ([("a", "AA", "ATOM", 80 # 1, 1 # 2)] ++ [("x/y", "CC", "ATOM", 90 # 1, 1 # 2)])
         (loop_init ∅)
       = Aborted (Exn FileNotFoundError [PyInt 2; PyStr "No such file or directory"]) st'
       /\ num_completed st' = 1.
Proof.
  assert (H : Forall (fun item => item_failure flat_directory item = None)
                [("a", "AA", "ATOM", 80 # 1, 1 # 2)]) by (repeat constructor).
  split; [exact H |]. split; [reflexivity |]. split; [reflexivity |].
  destruct (first_failure_aborts flat_directory 2 None (loop_init ∅) _ []
              ("x/y", "CC", "ATOM", 90 # 1, 1 # 2) _ H eq_refl) as (st' & Hrun & Hn & _).
  exists st'. split; [exact Hrun | exact Hn].
Defined.

(** ** The inference loop: the counter and the files of a finished run *)

Lemma batch_items_length (infer : model) (k : nat) (b : batch) :
  (List.length (batch_items infer k b) <= List.length (fst b))%nat.
Proof.
  unfold batch_items. destruct (infer k (snd b)) as [out | e]; simpl; [| lia].
  rewrite zip5_length. lia.
Qed.

Lemma completed_items_length (infer : model) (batches : list batch) :
  forall k,
    (List.length (completed_items infer k batches)
     <= List.length (List.concat (map fst batches)))%nat.
Proof.
  induction batches as [| b batches IH]; intros k; simpl; [lia |].
  rewrite !length_app. pose proof (batch_items_length infer k b). pose proof (IH (S k)). lia.
Qed.

(** The progress counter of a finished loop over the batches of [run]
    lies between 0 and the number of sequences read from the file. *)
Theorem completed_at_most_all (fs : file_system) (infer : model)
    (entries : list (string * string))
    (B : Z) (dir : gmap string string) (st : loop_state) :
  inference_loop fs infer (Z.of_nat (List.length (sorted_by_len entries))) 0
    (create_batched_sequence_datasest (sorted_by_len entries) B) (loop_init dir)
  = Finished st ->
  0 <= num_completed st <= Z.of_nat (List.length entries).
Proof.
  intros Hloop.
  destruct (inference_loop_finished _ _ _ _ _ _ _ Hloop) as (Hn & _).
  simpl in Hn. rewrite Hn.
  pose proof (completed_items_length infer
                (create_batched_sequence_datasest (sorted_by_len entries) B) 0) as Hle.
  unfold create_batched_sequence_datasest in Hle at 2.
  rewrite packer_loop_headers in Hle. simpl in Hle. rewrite length_map in Hle.
  rewrite <- (Permutation_length (sorted_by_len_perm entries)) in Hle. lia.
Qed.

Lemma completed_at_most_all_witness :
  exists st,
    inference_loop accepts_all always_oom (Z.of_nat (List.length (sorted_by_len [("a", "AAAA")]))) 0
      (create_batched_sequence_datasest (sorted_by_len [("a", "AAAA")]) 1024) (loop_init ∅)
    = Finished st
    /\ 0 <= num_completed st <= Z.of_nat (List.length [("a", "AAAA")]).
Proof.
  eexists. split; [reflexivity |].
  apply (completed_at_most_all accepts_all always_oom [("a", "AAAA")] 1024 ∅). reflexivity.
Defined.

Section WrittenFiles.

Variable fs : file_system.
Variable infer : model.
Variable num_sequences : Z.








End WrittenFiles.



(** ** [run]: when it returns *)

Lemma annotate_record_total (pLDDT pTM : dict Q) (r : seq_record) :
  dict_keys pLDDT = dict_keys pTM ->
  exists r',
    annotate_record pLDDT pTM r = Returned r'
    /\ rec_id r' = rec_id r /\ rec_seq r' = rec_seq r.
Proof.
  intros Hkeys. unfold annotate_record.
  destruct (dict_mem pLDDT (rec_id r)) eqn:Hmem.
  - apply dict_mem_keys in Hmem.
    pose proof Hmem as Hmem'. rewrite Hkeys in Hmem'.
    apply dict_get_keys in Hmem as [p ->]. apply dict_get_keys in Hmem' as [t ->].
    eexists. split; [reflexivity |]. split; reflexivity.
  - exists r. split; [reflexivity |]. split; reflexivity.
Qed.

Lemma annotate_total (pLDDT pTM : dict Q) (records : list seq_record) :
  dict_keys pLDDT = dict_keys pTM ->
  exists annotated,
    annotate pLDDT pTM records = Returned annotated
    /\ map rec_id annotated = map rec_id records
    /\ map rec_seq annotated = map rec_seq records.
Proof.
  intros Hkeys. induction records as [| r records IH]; simpl.
  - exists []. repeat split.
  - destruct (annotate_record_total pLDDT pTM r Hkeys) as (r' & -> & Hid & Hseq).
    destruct IH as (rest' & -> & Hids & Hseqs). simpl.
    exists (r' :: rest'). split; [reflexivity |]. simpl. split; congruence.
Qed.

(** After a finished loop the annotation pass cannot fail: the lookup
    [pTM_dict[seq_id]] of line 258 always finds its key, whatever records
    the file holds, and the pass keeps the ids and the sequences of the
    records, in order. *)
Theorem annotation_never_fails (fs : file_system) (infer : model) (n : Z) (batches : list batch)
    (dir : gmap string string) (st : loop_state) (records : list seq_record) :
  inference_loop fs infer n 0 batches (loop_init dir) = Finished st ->
  exists annotated,
    annotate (pLDDT_dict st) (pTM_dict st) records = Returned annotated
    /\ map rec_id annotated = map rec_id records
    /\ map rec_seq annotated = map rec_seq records.
Proof.
  intros Hloop.
  destruct (inference_loop_finished _ _ _ _ _ _ _ Hloop) as (_ & _ & _ & Hinv).
  destruct (Hinv dir (loop_inv_init dir)) as [Hkeys _].
  apply annotate_total. exact Hkeys.
Qed.

Lemma annotation_never_fails_witness :
  exists st annotated,
    inference_loop accepts_all two_scores 2 0 [(["a"; "b"], ["AA"; "CC"])]
      (loop_init ∅) = Finished st
    /\ annotate (pLDDT_dict st) (pTM_dict st) [SeqRecord "b" "CC" []; SeqRecord "z" "GG" []]
       = Returned annotated
    /\ map rec_id annotated = ["b"; "z"].
Proof.
  eexists.
  destruct (annotation_never_fails accepts_all two_scores 2 [(["a"; "b"], ["AA"; "CC"])] ∅ _
              [SeqRecord "b" "CC" []; SeqRecord "z" "GG" []] eq_refl)
    as (annotated & Hann & Hids & _).
  exists annotated. split; [reflexivity |]. split; [exact Hann | exact Hids].
Defined.





Lemma dict_set_same (V : Type) (d : dict V) (k : string) (v : V) :
  dict_get d k = Some v -> dict_set d k v = d.
Proof.
  induction d as [| [k0 v0] d IH]; simpl; [discriminate |].
  destruct (String.eqb k0 k).
  - intros H. injection H as ->. reflexivity.
  - intros H. f_equal. apply IH, H.
Qed.

(** Annotating again with the same aggregates changes nothing: the pass
    is idempotent. *)
Theorem annotate_idempotent (pLDDT pTM : dict Q) (records annotated : list seq_record) :
  annotate pLDDT pTM records = Returned annotated ->
  annotate pLDDT pTM annotated = Returned annotated.
Proof.
  revert annotated. induction records as [| r records IH]; intros annotated H; simpl in H.
  - injection H as <-. reflexivity.
  - apply bind_returned in H as (r' & Hr & H).
    apply bind_returned in H as (rest' & Hrest & H). injection H as <-.
    simpl. rewrite (IH rest' Hrest).
    assert (Hr' : annotate_record pLDDT pTM r' = Returned r').
    { unfold annotate_record in Hr |- *.
      destruct (dict_mem pLDDT (rec_id r)) eqn:Hmem.
      - destruct (dict_get pLDDT (rec_id r)) as [p |] eqn:Hp; [| discriminate].
        destruct (dict_get pTM (rec_id r)) as [t |] eqn:Ht; [| discriminate].
        injection Hr as <-. simpl. rewrite Hmem, Hp, Ht.
        rewrite (dict_set_same _ _ "pLDDT" (format_fixed 1 p)).
        + rewrite (dict_set_same _ _ "pTM" (format_fixed 3 t)); [reflexivity |].
          apply dict_get_set_eq.
        + rewrite dict_get_set_ne by discriminate. apply dict_get_set_eq.
      - injection Hr as <-. rewrite Hmem. reflexivity. }
    rewrite Hr'. reflexivity.
Qed.

Lemma annotate_idempotent_witness :
  annotate [("a", 85 # 1)] [("a", 1 # 2)] [SeqRecord "a" "AAAA" [("len", "4")]]
  = Returned [SeqRecord "a" "AAAA" [("len", "4"); ("pLDDT", "85.0"); ("pTM", "0.500")]]
  /\ annotate [("a", 85 # 1)] [("a", 1 # 2)]
       [SeqRecord "a" "AAAA" [("len", "4"); ("pLDDT", "85.0"); ("pTM", "0.500")]]
     = Returned [SeqRecord "a" "AAAA" [("len", "4"); ("pLDDT", "85.0"); ("pTM", "0.500")]].
Proof.
  split; [reflexivity |].
  apply (annotate_idempotent [("a", 85 # 1)] [("a", 1 # 2)]
           [SeqRecord "a" "AAAA" [("len", "4")]]).
  reflexivity.
Defined.

(** ** [parse_fasta]: reading block by block *)

Lemma all_chars_app (p : ascii -> bool) (s t : string) :
  all_chars p (s ++ t) = all_chars p s && all_chars p t.
Proof.
  induction s as [| c s IH]; simpl; [reflexivity |].
  rewrite IH, andb_assoc. reflexivity.
Qed.

(** The tokens of [split] are not empty and hold no white space. *)
Lemma split_from_tokens (s : string) :
  forall tok,
    match tok with
    | Some t => t <> EmptyString /\ no_space t = true
    | None => True
    end ->
    Forall (fun t => t <> EmptyString /\ no_space t = true) (split_from s tok).
Proof.
  induction s as [| c s IH]; intros tok Htok; simpl.
  - destruct tok; [constructor; [exact Htok | constructor] | constructor].
  - destruct (is_space c) eqn:Hc.
    + destruct tok; [constructor; [exact Htok |] |]; apply IH; exact I.
    + apply IH. destruct tok as [t |].
      * destruct Htok as [Hne Hns]. split.
        -- destruct t; discriminate.
        -- unfold no_space in *. rewrite all_chars_app, Hns. simpl. rewrite Hc. reflexivity.
      * split; [discriminate |]. unfold no_space. simpl. rewrite Hc. reflexivity.
Qed.

Lemma split_tokens (s : string) :
  Forall (fun t => t <> EmptyString /\ no_space t = true) (split s).
Proof. apply split_from_tokens. exact I. Qed.

Lemma parse_lines_app (l1 l2 : list string) :
  forall st,
    parse_lines (l1 ++ l2) st = (st' <- parse_lines l1 st ;; parse_lines l2 st').
Proof.
  induction l1 as [| raw l1 IH]; intros st; simpl.
  - reflexivity.
  - destruct (parse_line st raw) as [st1 | e]; simpl; [apply IH | reflexivity].
Qed.

(** Lines that are not headers are stripped and kept for the sequence of
    the current record. *)
Lemma parse_lines_body (body : list string) :
  forall st,
    Forall (fun raw => is_header raw = false) body ->
    parse_lines body st
    = Returned {| p_sequences := p_sequences st; p_seq_id := p_seq_id st;
                  p_seq := p_seq st ++ map strip body;
                  p_annotations := p_annotations st |}.
Proof.
  induction body as [| raw body IH]; intros st Hall; simpl.
  - rewrite app_nil_r. destruct st; reflexivity.
  - inversion Hall as [| x l Hraw Hall']; subst.
    unfold parse_line. unfold is_header in Hraw. rewrite Hraw. simpl.
    rewrite IH by exact Hall'. simpl. rewrite <- app_assoc. reflexivity.
Qed.

Lemma parse_line_header (st : parser_state) (raw : string) :
  is_header raw = true ->
  parse_line st raw
  = (ia <- parse_header raw ;;
     Returned {| p_sequences := flush st; p_seq_id := Some (fst ia);
                 p_seq := []; p_annotations := snd ia |}).
Proof.
  unfold is_header, parse_line, parse_header. intros ->.
  destruct (split (drop_first (strip raw))) as [| seq_id items]; [reflexivity |].
  simpl. destruct (annotations_of items []); reflexivity.
Qed.

Lemma parse_header_id (raw : string) (seq_id : string) (annotations : dict string) :
  parse_header raw = Returned (seq_id, annotations) ->
  seq_id <> EmptyString /\ no_space seq_id = true.
Proof.
  unfold parse_header. pose proof (split_tokens (drop_first (strip raw))) as Htok.
  destruct (split (drop_first (strip raw))) as [| t items]; [discriminate |].
  intros H. apply bind_returned in H as (a & _ & H). injection H as <- _.
  inversion Htok; assumption.
Qed.

Lemma flush_pending (sequences : list seq_record) (seq_id : string) (seq : list string)
    (annotations : dict string) :
  seq_id <> EmptyString ->
  flush {| p_sequences := sequences; p_seq_id := Some seq_id; p_seq := seq;
           p_annotations := annotations |}
  = sequences ++ [ {| rec_id := seq_id; rec_seq := join EmptyString seq;
                      rec_annotations := annotations |} ].
Proof.
  intros Hne. unfold flush, truthy. simpl.
  destruct (String.eqb seq_id EmptyString) eqn:E; [| reflexivity].
  apply String.eqb_eq in E. contradiction.
Qed.

Lemma parse_blocks_from (blocks : list block) :
  forall st,
    Forall well_formed_block blocks ->
    (st' <- parse_lines (flat_map block_lines blocks) st ;; Returned (flush st'))
    = (rs <- decode_blocks blocks ;; Returned (flush st ++ rs)).
Proof.
  induction blocks as [| [h body] blocks IH]; intros st Hall; simpl.
  - rewrite app_nil_r. reflexivity.
  - inversion Hall as [| x l [Hh Hbody] Hall']; subst. simpl in Hh, Hbody.
    rewrite (parse_line_header st h Hh). unfold decode_block. simpl.
    destruct (parse_header h) as [[seq_id annotations] | e] eqn:Hparse; simpl;
      [| reflexivity].
    destruct (parse_header_id h seq_id annotations Hparse) as [Hne _].
    rewrite parse_lines_app, parse_lines_body by exact Hbody. simpl.
    rewrite IH by exact Hall'.
    rewrite flush_pending by exact Hne.
    destruct (decode_blocks blocks) as [rs | e]; simpl; [| reflexivity].
    rewrite <- app_assoc. reflexivity.
Qed.

Lemma parse_fasta_blocks (before : list string) (blocks : list block) :
  Forall (fun raw => is_header raw = false) before ->
  Forall well_formed_block blocks ->
  parse_fasta (before ++ flat_map block_lines blocks) = decode_blocks blocks.
Proof.
  intros Hbefore Hblocks. unfold parse_fasta.
  rewrite parse_lines_app, parse_lines_body by exact Hbefore. simpl.
  rewrite (parse_blocks_from blocks _ Hblocks). simpl.
  destruct (decode_blocks blocks); reflexivity.
Qed.

(** [parse_fasta] reads a file block by block.  The lines before the
    first header are dropped; every header line with the lines up to the
    next header gives one record, whose sequence is the lines stripped and
    joined; the first header that cannot be read gives the error of the
    whole call. *)
Theorem parse_fasta_by_blocks (before : list string) (blocks : list block) :
  Forall (fun raw => is_header raw = false) before ->
  Forall well_formed_block blocks ->
  parse_fasta (before ++ flat_map block_lines blocks) = decode_blocks blocks.
Proof. apply parse_fasta_blocks. Qed.

Lemma parse_fasta_by_blocks_witness :
  Forall (fun raw => is_header raw = false) ["; a comment"; "ACGT"]
  /\ Forall well_formed_block [(">a x=1", [" AA "; "CC"]); (">b", [])]
  /\ parse_fasta (["; a comment"; "ACGT"]
                  ++ flat_map block_lines [(">a x=1", [" AA "; "CC"]); (">b", [])])
     = Returned [SeqRecord "a" "AACC" [("x", "1")]; SeqRecord "b" "" []].
Proof.
  assert (H1 : Forall (fun raw => is_header raw = false) ["; a comment"; "ACGT"])
    by (repeat constructor).
  assert (H2 : Forall well_formed_block [(">a x=1", [" AA "; "CC"]); (">b", [])])
    by (repeat constructor).
  split; [exact H1 |]. split; [exact H2 |].
  rewrite (parse_fasta_by_blocks _ _ H1 H2). reflexivity.
Defined.

(** ** [parse_fasta]: what every returned record satisfies *)

(** Every file is some lines before the first header followed by
    blocks. *)
Lemma lines_as_blocks (lines : list string) :
  exists before blocks,
    lines = before ++ flat_map block_lines blocks
    /\ Forall (fun raw => is_header raw = false) before
    /\ Forall well_formed_block blocks.
Proof.
  induction lines as [| raw lines (before & blocks & Heq & Hbefore & Hblocks)].
  - exists [], []. repeat split; constructor.
  - destruct (is_header raw) eqn:E.
    + exists [], ((raw, before) :: blocks). simpl. split; [congruence |].
      split; [constructor |]. constructor; [split; assumption | exact Hblocks].
    + exists (raw :: before), blocks. simpl. split; [congruence |].
      split; [constructor; assumption | exact Hblocks].
Qed.

Lemma all_chars_impl (p q : ascii -> bool) (s : string) :
  (forall c, p c = true -> q c = true) -> all_chars p s = true -> all_chars q s = true.
Proof.
  intros Hpq. induction s as [| c s IH]; simpl; [reflexivity |].
  intros H. apply andb_prop in H as [Hc Hs]. rewrite (Hpq c Hc), (IH Hs). reflexivity.
Qed.

Lemma split_on_parts (p : ascii -> bool) (sep : ascii) (s : string) :
  all_chars p s = true -> Forall (fun part => all_chars p part = true) (split_on sep s).
Proof.
  induction s as [| c s IH]; simpl; intros H.
  - constructor; [reflexivity | constructor].
  - apply andb_prop in H as [Hc Hs]. specialize (IH Hs).
    destruct (Ascii.eqb c sep).
    + constructor; [reflexivity | exact IH].
    + destruct (split_on sep s) as [| t ts].
      * constructor; [simpl; rewrite Hc; reflexivity | constructor].
      * inversion IH as [| x l Ht Hts]; subst.
        constructor; [simpl; rewrite Hc, Ht; reflexivity | exact Hts].
Qed.

Lemma split_on_no_sep (sep : ascii) (s : string) :
  Forall (fun part => all_chars (fun c => negb (Ascii.eqb c sep)) part = true)
    (split_on sep s).
Proof.
  induction s as [| c s IH]; simpl.
  - constructor; [reflexivity | constructor].
  - destruct (Ascii.eqb c sep) eqn:E.
    + constructor; [reflexivity | exact IH].
    + destruct (split_on sep s) as [| t ts].
      * constructor; [simpl; rewrite E; reflexivity | constructor].
      * inversion IH as [| x l Ht Hts]; subst.
        constructor; [simpl; rewrite E, Ht; reflexivity | exact Hts].
Qed.

Lemma key_value_plain (item k v : string) :
  no_space item = true -> key_value item = Returned (k, v) -> plain k /\ plain v.
Proof.
  intros Hns. unfold key_value.
  pose proof (split_on_parts _ "="%char item Hns) as Hsp.
  pose proof (split_on_no_sep "="%char item) as Heq.
  destruct (split_on "="%char item) as [| a [| b [| c l]]]; try discriminate.
  intros H. injection H as <- <-.
  inversion Hsp as [| x1 l1 Ha Hsp']; subst. inversion Hsp' as [| x2 l2 Hb _]; subst.
  inversion Heq as [| x3 l3 Ha' Heq']; subst. inversion Heq' as [| x4 l4 Hb' _]; subst.
  repeat split; assumption.
Qed.

Lemma dict_set_forall (V : Type) (P : string * V -> Prop) (d : dict V) (k : string) (v : V) :
  Forall P d -> P (k, v) -> Forall P (dict_set d k v).
Proof.
  intros Hd Hkv. induction d as [| [k0 v0] d IH]; simpl.
  - constructor; [exact Hkv | constructor].
  - inversion Hd as [| x l H0 Hd']; subst.
    destruct (String.eqb k0 k) eqn:E.
    + apply String.eqb_eq in E. subst k0. constructor; [exact Hkv | exact Hd'].
    + constructor; [exact H0 | apply IH, Hd'].
Qed.

Lemma annotations_of_ok (items : list string) :
  forall d d',
    Forall (fun t => t <> EmptyString /\ no_space t = true) items ->
    NoDup (dict_keys d) ->
    Forall (fun kv => plain (fst kv) /\ plain (snd kv)) d ->
    annotations_of items d = Returned d' ->
    NoDup (dict_keys d') /\ Forall (fun kv => plain (fst kv) /\ plain (snd kv)) d'.
Proof.
  induction items as [| item items IH]; intros d d' Hitems Hnd Hd H; simpl in H.
  - injection H as <-. split; assumption.
  - inversion Hitems as [| x l [_ Hns] Hitems']; subst.
    apply bind_returned in H as ([k v] & Hkv & H). simpl in H.
    destruct (key_value_plain item k v Hns Hkv) as [Hk Hv].
    apply (IH _ _ Hitems' (dict_keys_set_nodup _ d k v Hnd)); [| exact H].
    apply dict_set_forall; [exact Hd | simpl; split; assumption].
Qed.

Lemma decode_block_ok (b : block) (r : seq_record) :
  decode_block b = Returned r -> parsed_ok r.
Proof.
  unfold decode_block. intros H.
  apply bind_returned in H as ([seq_id annotations] & Hparse & H).
  injection H as <-. unfold parsed_ok. simpl.
  destruct (parse_header_id _ _ _ Hparse) as [Hne Hns].
  split; [exact Hne |]. split; [exact Hns |].
  unfold parse_header in Hparse.
  pose proof (split_tokens (drop_first (strip (fst b)))) as Htok.
  destruct (split (drop_first (strip (fst b)))) as [| t items]; [discriminate |].
  apply bind_returned in Hparse as (a & Hann & Hret). injection Hret as _ ->.
  inversion Htok as [| x l _ Hitems]; subst.
  apply (annotations_of_ok items [] annotations Hitems); [constructor | constructor | exact Hann].
Qed.

Lemma decode_blocks_ok (blocks : list block) :
  forall records, decode_blocks blocks = Returned records -> Forall parsed_ok records.
Proof.
  induction blocks as [| b blocks IH]; intros records H; simpl in H.
  - injection H as <-. constructor.
  - apply bind_returned in H as (r & Hr & H).
    apply bind_returned in H as (rs & Hrs & H). injection H as <-.
    constructor; [apply (decode_block_ok b r Hr) | apply IH, Hrs].
Qed.

(** Whatever the file, a record that [parse_fasta] returns has an id that
    is one token, not empty and free of white space, and annotations whose
    keys are distinct and whose keys and values hold neither white space
    nor [=]. *)
Theorem parse_fasta_records_ok (lines : list string) (records : list seq_record) :
  parse_fasta lines = Returned records -> Forall parsed_ok records.
Proof.
  destruct (lines_as_blocks lines) as (before & blocks & -> & Hbefore & Hblocks).
  rewrite (parse_fasta_blocks before blocks Hbefore Hblocks).
  apply decode_blocks_ok.
Qed.

Lemma parse_fasta_records_ok_witness :
  parse_fasta [">a x=1 y=2"; "AAAA"; ">b"; "GG"]
  = Returned [SeqRecord "a" "AAAA" [("x", "1"); ("y", "2")]; SeqRecord "b" "GG" []]
  /\ Forall parsed_ok
       [SeqRecord "a" "AAAA" [("x", "1"); ("y", "2")]; SeqRecord "b" "GG" []].
Proof.
  split; [reflexivity |].
  apply (parse_fasta_records_ok [">a x=1 y=2"; "AAAA"; ">b"; "GG"]). reflexivity.
Defined.

(** ** [parse_fasta]: which files it reads *)

Lemma key_value_cases (item : string) :
  if Nat.eqb (List.length (split_on "="%char item)) 2
  then exists kv, key_value item = Returned kv
  else exists e, key_value item = Raised e /\ exc_class e = ValueError.
Proof.
  unfold key_value.
  destruct (split_on "="%char item) as [| a [| b [| c l]]]; simpl;
    eexists; try split; reflexivity.
Qed.

Lemma annotations_of_cases (items : list string) :
  forall d,
    if forallb (fun item => Nat.eqb (List.length (split_on "="%char item)) 2) items
    then exists d', annotations_of items d = Returned d'
    else exists e, annotations_of items d = Raised e /\ exc_class e = ValueError.
Proof.
  induction items as [| item items IH]; intros d; simpl.
  - eexists. reflexivity.
  - pose proof (key_value_cases item) as Hkv.
    destruct (Nat.eqb (List.length (split_on "="%char item)) 2); simpl.
    + destruct Hkv as [kv ->]. simpl. apply IH.
    + destruct Hkv as (e & -> & He). exists e. split; [reflexivity | exact He].
Qed.

Lemma parse_header_cases (raw : string) :
  if header_ok raw
  then exists ia, parse_header raw = Returned ia
  else exists e,
         parse_header raw = Raised e
         /\ (exc_class e = IndexError \/ exc_class e = ValueError).
Proof.
  unfold header_ok, parse_header.
  destruct (split (drop_first (strip raw))) as [| seq_id items].
  - eexists. split; [reflexivity | left; reflexivity].
  - pose proof (annotations_of_cases items []) as Hann.
    destruct (forallb _ items).
    + destruct Hann as [d ->]. eexists. reflexivity.
    + destruct Hann as (e & -> & He). exists e. split; [reflexivity | right; exact He].
Qed.

Lemma decode_blocks_cases (blocks : list block) :
  if forallb (fun b => header_ok (fst b)) blocks
  then exists records, decode_blocks blocks = Returned records
  else exists e,
         decode_blocks blocks = Raised e
         /\ (exc_class e = IndexError \/ exc_class e = ValueError).
Proof.
  induction blocks as [| b blocks IH]; simpl.
  - eexists. reflexivity.
  - unfold decode_block. pose proof (parse_header_cases (fst b)) as Hh.
    destruct (header_ok (fst b)); simpl.
    + destruct Hh as [ia ->]. simpl.
      destruct (forallb (fun b => header_ok (fst b)) blocks).
      * destruct IH as [rs ->]. eexists. reflexivity.
      * destruct IH as (e & -> & He). exists e. split; [reflexivity | exact He].
    + destruct Hh as (e & -> & He). exists e. split; [reflexivity | exact He].
Qed.

Lemma headers_of_blocks (before : list string) (blocks : list block) :
  Forall (fun raw => is_header raw = false) before ->
  Forall well_formed_block blocks ->
  forallb (fun b => header_ok (fst b)) blocks
  = forallb (fun raw => implb (is_header raw) (header_ok raw))
      (before ++ flat_map block_lines blocks).
Proof.
  intros Hbefore Hblocks. rewrite forallb_app.
  assert (H1 : forallb (fun raw => implb (is_header raw) (header_ok raw)) before = true).
  { apply forallb_forall. rewrite Forall_forall in Hbefore.
    intros raw Hin. rewrite (Hbefore raw Hin). reflexivity. }
  rewrite H1. simpl. clear H1 Hbefore before.
  induction blocks as [| [h body] blocks IH]; simpl; [reflexivity |].
  inversion Hblocks as [| x l [Hh Hbody] Hblocks']; subst. simpl in Hh, Hbody.
  rewrite Hh. simpl. rewrite forallb_app.
  assert (H2 : forallb (fun raw => implb (is_header raw) (header_ok raw)) body = true).
  { apply forallb_forall. rewrite Forall_forall in Hbody.
    intros raw Hin. rewrite (Hbody raw Hin). reflexivity. }
  rewrite H2. simpl. rewrite (IH Hblocks'). reflexivity.
Qed.

(** [parse_fasta] returns exactly when every header line of the file
    holds an id and only [key=value] tokens after it; a header with a plain
    word after the id, as in [>id some description], makes it raise a
    [ValueError], and a header without an id an [IndexError]. *)
Theorem parse_fasta_returns_iff (lines : list string) :
  if forallb (fun raw => implb (is_header raw) (header_ok raw)) lines
  then exists records, parse_fasta lines = Returned records
  else exists e,
         parse_fasta lines = Raised e
         /\ (exc_class e = IndexError \/ exc_class e = ValueError).
Proof.
  destruct (lines_as_blocks lines) as (before & blocks & -> & Hbefore & Hblocks).
  rewrite <- (headers_of_blocks before blocks Hbefore Hblocks).
  rewrite (parse_fasta_blocks before blocks Hbefore Hblocks).
  apply decode_blocks_cases.
Qed.

Example parse_fasta_description :
  parse_fasta [">sp|P1 Homo sapiens"; "ACGT"]
  = Raised (Exn ValueError [PyStr "not enough values to unpack (expected 2, got 1)"])
  /\ parse_fasta [">"; "ACGT"] = Raised (index_error "list").
Proof. split; reflexivity. Qed.

(** ** [write_fasta] and [parse_fasta]: the round trip *)

Lemma append_nil_l (t : string) : (EmptyString ++ t)%string = t.
Proof. reflexivity. Qed.

Lemma append_cons (c : ascii) (s t : string) :
  (String c s ++ t)%string = String c (s ++ t).
Proof. reflexivity. Qed.

Lemma string_app_assoc (a b c : string) : ((a ++ b) ++ c = a ++ (b ++ c))%string.
Proof.
  induction a as [| x a IH]; [reflexivity |].
  rewrite !append_cons. f_equal. exact IH.
Qed.

Lemma string_app_nil_r (s : string) : (s ++ EmptyString)%string = s.
Proof.
  induction s as [| x s IH]; [reflexivity |].
  rewrite append_cons. f_equal. exact IH.
Qed.

Lemma join_cons (sep x : string) (l : list string) :
  l <> [] -> join sep (x :: l) = (x ++ sep ++ join sep l)%string.
Proof. destruct l; [congruence | reflexivity]. Qed.

Lemma all_chars_join (p : ascii -> bool) (sep : string) (parts : list string) :
  all_chars p sep = true -> Forall (fun part => all_chars p part = true) parts ->
  all_chars p (join sep parts) = true.
Proof.
  intros Hsep. induction parts as [| x parts IH]; intros Hall; [reflexivity |].
  inversion Hall as [| y l Hx Hall']; subst.
  destruct parts as [| x' parts]; [exact Hx |].
  rewrite join_cons by discriminate.
  rewrite !all_chars_app, Hx, Hsep, (IH Hall'). reflexivity.
Qed.

Lemma no_space_no_break (s : string) : no_space s = true -> no_break s = true.
Proof.
  apply all_chars_impl. intros c Hc.
  destruct (Ascii.eqb c "010"%char) eqn:E1; [apply Ascii.eqb_eq in E1; subst; discriminate |].
  destruct (Ascii.eqb c "013"%char) eqn:E2; [apply Ascii.eqb_eq in E2; subst; discriminate |].
  reflexivity.
Qed.

Lemma file_lines_from_char (c : ascii) (rest cur : string) :
  Ascii.eqb c "010"%char = false -> Ascii.eqb c "013"%char = false ->
  file_lines_from (String c rest) cur = file_lines_from rest (cur ++ String c EmptyString).
Proof. intros H1 H2. cbn [file_lines_from]. rewrite H1, H2. reflexivity. Qed.

(** Reading back one written line. *)
Lemma file_lines_from_line (s rest : string) :
  no_break s = true ->
  forall cur,
    file_lines_from (s ++ nl ++ rest) cur
    = (cur ++ s ++ nl)%string :: file_lines_from rest EmptyString.
Proof.
  induction s as [| c s IH]; intros Hnb cur.
  - reflexivity.
  - unfold no_break in Hnb. cbn [all_chars] in Hnb.
    apply andb_prop in Hnb as [Hc Hs]. apply andb_prop in Hc as [H1 H2].
    apply negb_true_iff in H1, H2.
    rewrite append_cons, (file_lines_from_char c _ _ H1 H2), (IH Hs).
    rewrite string_app_assoc, !append_cons, append_nil_l. reflexivity.
Qed.

Lemma write_record_lines (r : seq_record) :
  write_record r = (header_text r ++ nl ++ rec_seq r ++ nl)%string.
Proof.
  unfold write_record, header_text. cbn zeta.
  rewrite !string_app_assoc. reflexivity.
Qed.

Lemma write_fasta_cons (r : seq_record) (rs : list seq_record) :
  write_fasta (r :: rs) = (write_record r ++ write_fasta rs)%string.
Proof.
  unfold write_fasta. destruct rs as [| r' rs].
  - simpl. rewrite string_app_nil_r. reflexivity.
  - cbn [map]. rewrite join_cons by discriminate. reflexivity.
Qed.

Lemma writable_no_break (r : seq_record) :
  writable r -> no_break (header_text r) = true /\ no_break (rec_seq r) = true.
Proof.
  intros (_ & Hid & Hseq & _ & _ & Hann).
  split; [| apply no_space_no_break, Hseq].
  pose proof (no_space_no_break _ Hid) as Hid'.
  assert (HJ : no_break (join " " (map annotation_text (rec_annotations r))) = true).
  { apply all_chars_join; [reflexivity |].
    apply Forall_map. eapply Forall_impl; [| exact Hann].
    intros [k v] [[Hk _] [Hv _]]. simpl in Hk, Hv.
    pose proof (no_space_no_break _ Hk) as Hk'. pose proof (no_space_no_break _ Hv) as Hv'.
    unfold annotation_text, no_break in *. cbn [fst snd].
    rewrite !all_chars_app, Hk', Hv'. reflexivity. }
  unfold header_text, no_break in *. rewrite !all_chars_app, Hid', HJ. reflexivity.
Qed.

(** Read line by line, the text that [write_fasta] writes is two lines per
    record. *)
Lemma file_lines_written (records : list seq_record) :
  Forall writable records ->
  file_lines (write_fasta records) = flat_map record_lines records.
Proof.
  unfold file_lines. induction records as [| r records IH]; intros Hall.
  - reflexivity.
  - inversion Hall as [| x l Hr Hall']; subst.
    destruct (writable_no_break r Hr) as [Hh Hs].
    rewrite write_fasta_cons, write_record_lines.
    rewrite !string_app_assoc.
    rewrite (file_lines_from_line _ _ Hh).
    rewrite (file_lines_from_line _ _ Hs).
    rewrite (IH Hall'). reflexivity.
Qed.

Lemma rstrip_only_space (t : string) : only_space t = true -> rstrip t = EmptyString.
Proof.
  induction t as [| c t IH]; simpl; [reflexivity |].
  intros H. apply andb_prop in H as [Hc Ht]. rewrite (IH Ht), Hc. reflexivity.
Qed.

Lemma rstrip_app_space (s t : string) :
  only_space t = true -> rstrip (s ++ t) = rstrip s.
Proof.
  intros Ht. induction s as [| c s IH]; simpl.
  - apply rstrip_only_space, Ht.
  - rewrite IH. reflexivity.
Qed.

Lemma rstrip_no_space (s : string) : no_space s = true -> rstrip s = s.
Proof.
  induction s as [| c s IH]; simpl; [reflexivity |].
  intros H. apply andb_prop in H as [Hc Hs]. apply negb_true_iff in Hc.
  rewrite (IH Hs), Hc. reflexivity.
Qed.

Lemma lstrip_only_space (t : string) : only_space t = true -> lstrip t = EmptyString.
Proof.
  induction t as [| c t IH]; simpl; [reflexivity |].
  intros H. apply andb_prop in H as [Hc Ht]. rewrite Hc. apply IH, Ht.
Qed.

Lemma strip_no_space (s t : string) :
  no_space s = true -> only_space t = true -> strip (s ++ t) = s.
Proof.
  intros Hs Ht. unfold strip. destruct s as [| c s].
  - rewrite append_nil_l, (lstrip_only_space _ Ht). reflexivity.
  - pose proof Hs as Hs'. unfold no_space in Hs'. cbn [all_chars] in Hs'.
    apply andb_prop in Hs' as [Hc _]. apply negb_true_iff in Hc.
    rewrite append_cons. cbn [lstrip]. rewrite Hc, <- append_cons.
    rewrite (rstrip_app_space _ _ Ht). apply rstrip_no_space, Hs.
Qed.

Lemma split_from_only_space (t : string) :
  only_space t = true ->
  forall tok, split_from t tok = match tok with Some x => [x] | None => [] end.
Proof.
  induction t as [| c t IH]; simpl; intros H tok; [reflexivity |].
  apply andb_prop in H as [Hc Ht]. rewrite Hc.
  destruct tok; rewrite (IH Ht); reflexivity.
Qed.

Lemma split_from_word (w rest : string) :
  no_space w = true ->
  forall cur, split_from (w ++ rest) (Some cur) = split_from rest (Some (cur ++ w)%string).
Proof.
  induction w as [| c w IH]; intros Hw cur.
  - rewrite append_nil_l, string_app_nil_r. reflexivity.
  - unfold no_space in Hw. cbn [all_chars] in Hw.
    apply andb_prop in Hw as [Hc Hw]. apply negb_true_iff in Hc.
    rewrite append_cons. cbn [split_from]. rewrite Hc, (IH Hw), string_app_assoc.
    reflexivity.
Qed.

Lemma split_from_word_start (w rest : string) :
  w <> EmptyString -> no_space w = true ->
  split_from (w ++ rest) None = split_from rest (Some w).
Proof.
  destruct w as [| c w]; [congruence |]. intros _ Hw.
  unfold no_space in Hw. cbn [all_chars] in Hw.
  apply andb_prop in Hw as [Hc Hw]. apply negb_true_iff in Hc.
  rewrite append_cons. cbn [split_from]. rewrite Hc, (split_from_word _ _ Hw).
  reflexivity.
Qed.

Lemma split_joined (toks : list string) (tail : string) :
  Forall (fun t => t <> EmptyString /\ no_space t = true) toks ->
  only_space tail = true ->
  split (join " " toks ++ tail) = toks.
Proof.
  unfold split. intros Hall Htail. induction toks as [| t toks IH].
  - apply (split_from_only_space _ Htail None).
  - inversion Hall as [| x l [Hne Hns] Hall']; subst.
    destruct toks as [| t' toks].
    + change (join " " [t]) with t. rewrite (split_from_word_start _ _ Hne Hns).
      apply (split_from_only_space _ Htail (Some t)).
    + rewrite join_cons by discriminate. rewrite !string_app_assoc.
      rewrite (split_from_word_start _ _ Hne Hns).
      rewrite append_cons, append_nil_l. cbn [split_from].
      change (is_space " "%char) with true. cbv iota.
      f_equal. apply IH, Hall'.
Qed.

Lemma rstrip_keeps (a b : string) :
  b <> EmptyString -> no_space b = true -> rstrip (a ++ b) = (a ++ b)%string.
Proof.
  intros Hne Hns. induction a as [| x a IH].
  - rewrite append_nil_l. apply rstrip_no_space, Hns.
  - rewrite append_cons. cbn [rstrip]. rewrite IH.
    assert (E : String.eqb (a ++ b) EmptyString = false).
    { apply String.eqb_neq. destruct a; [rewrite append_nil_l; exact Hne | discriminate]. }
    rewrite E, andb_false_r. reflexivity.
Qed.

Lemma rstrip_joined (toks : list string) (a : string) :
  Forall (fun t => t <> EmptyString /\ no_space t = true) toks ->
  toks <> [] ->
  rstrip (a ++ join " " toks) = (a ++ join " " toks)%string.
Proof.
  intros Hall. revert a. induction toks as [| t toks IH]; intros a Hne; [congruence |].
  inversion Hall as [| x l [Htne Hns] Hall']; subst.
  destruct toks as [| t' toks].
  - change (join " " [t]) with t. apply rstrip_keeps; assumption.
  - rewrite join_cons by discriminate.
    rewrite <- !string_app_assoc. rewrite (IH Hall') by discriminate. reflexivity.
Qed.

Lemma split_on_none (sep : ascii) (s : string) :
  all_chars (fun c => negb (Ascii.eqb c sep)) s = true -> split_on sep s = [s].
Proof.
  induction s as [| c s IH]; simpl; [reflexivity |].
  intros H. apply andb_prop in H as [Hc Hs]. apply negb_true_iff in Hc.
  rewrite Hc, (IH Hs). reflexivity.
Qed.

Lemma split_on_first (sep : ascii) (k v : string) :
  all_chars (fun c => negb (Ascii.eqb c sep)) k = true ->
  split_on sep (k ++ String sep v) = k :: split_on sep v.
Proof.
  induction k as [| c k IH]; simpl.
  - intros _. rewrite Ascii.eqb_refl. reflexivity.
  - intros H. apply andb_prop in H as [Hc Hk]. apply negb_true_iff in Hc.
    rewrite Hc, (IH Hk). reflexivity.
Qed.

Lemma key_value_written (kv : string * string) :
  plain (fst kv) -> plain (snd kv) -> key_value (annotation_text kv) = Returned kv.
Proof.
  destruct kv as [k v]. simpl. intros [_ Hk] [_ Hv].
  unfold key_value, annotation_text. cbn [fst snd].
  change ("=" ++ v)%string with (String "="%char v).
  rewrite (split_on_first "="%char k v Hk), (split_on_none "="%char v Hv). reflexivity.
Qed.

Lemma annotations_of_written (anns : dict string) :
  forall d,
    NoDup (dict_keys (d ++ anns)) ->
    Forall (fun kv => plain (fst kv) /\ plain (snd kv)) anns ->
    annotations_of (map annotation_text anns) d = Returned (d ++ anns).
Proof.
  induction anns as [| [k v] anns IH]; intros d Hnd Hall; simpl.
  - rewrite app_nil_r. reflexivity.
  - inversion Hall as [| x l [Hk Hv] Hall']; subst. simpl in Hk, Hv.
    rewrite (key_value_written (k, v) Hk Hv). simpl.
    unfold dict_keys in Hnd. rewrite map_app in Hnd. simpl in Hnd.
    pose proof (NoDup_remove_2 _ _ _ Hnd) as Hfresh.
    rewrite dict_set_fresh.
    + rewrite IH; [rewrite <- app_assoc; reflexivity | | exact Hall'].
      unfold dict_keys. rewrite <- app_assoc, map_app. simpl. exact Hnd.
    + intros Hin. apply Hfresh. apply in_or_app. left. exact Hin.
Qed.

Lemma annotation_text_token (kv : string * string) :
  plain (fst kv) -> plain (snd kv) ->
  annotation_text kv <> EmptyString /\ no_space (annotation_text kv) = true.
Proof.
  destruct kv as [k v]. simpl. intros [Hk _] [Hv _]. unfold annotation_text. simpl. split.
  - destruct k; discriminate.
  - unfold no_space in *. rewrite all_chars_app, Hk. simpl. exact Hv.
Qed.

Lemma rstrip_tokens (toks : list string) (tail : string) :
  Forall (fun t => t <> EmptyString /\ no_space t = true) toks ->
  toks <> [] -> only_space tail = true ->
  rstrip (join " " toks ++ tail) = join " " toks.
Proof.
  intros Hall Hne Htail. rewrite (rstrip_app_space _ _ Htail).
  rewrite <- (append_nil_l (join " " toks)). apply rstrip_joined; assumption.
Qed.

Lemma split_tokens_joined (toks : list string) :
  Forall (fun t => t <> EmptyString /\ no_space t = true) toks ->
  split (join " " toks) = toks.
Proof.
  intros Hall. rewrite <- (string_app_nil_r (join " " toks)).
  apply split_joined; [exact Hall | reflexivity].
Qed.

Lemma startswith_header (body : string) : startswith (String ">"%char body) ">" = true.
Proof. unfold startswith. destruct body; reflexivity. Qed.

Lemma strip_header (body : string) :
  strip (String ">"%char body) = String ">"%char (rstrip body).
Proof. reflexivity. Qed.

(** The header line of a writable record is read back as its id and its
    annotations. *)
Lemma parse_header_written (r : seq_record) :
  writable r ->
  is_header (header_text r ++ nl) = true
  /\ parse_header (header_text r ++ nl) = Returned (rec_id r, rec_annotations r).
Proof.
  intros (Hne & Hid & _ & _ & Hnd & Hann).
  set (toks := rec_id r :: map annotation_text (rec_annotations r)).
  assert (Htoks : Forall (fun t => t <> EmptyString /\ no_space t = true) toks).
  { constructor; [split; assumption |]. apply Forall_map.
    eapply Forall_impl; [| exact Hann].
    intros kv [Hk Hv]. apply annotation_text_token; assumption. }
  assert (Hline : exists tail,
             only_space tail = true
             /\ (header_text r ++ nl)%string = String ">"%char (join " " toks ++ tail)).
  { unfold header_text, toks. destruct (rec_annotations r) as [| kv anns].
    - exists (" " ++ nl)%string. split; [reflexivity |].
      change (join " " [rec_id r]) with (rec_id r).
      rewrite !string_app_assoc. reflexivity.
    - exists nl. split; [reflexivity |].
      rewrite join_cons by discriminate. rewrite !string_app_assoc. reflexivity. }
  destruct Hline as (tail & Htail & Hline).
  assert (Hstrip : strip (header_text r ++ nl) = String ">"%char (join " " toks)).
  { rewrite Hline, strip_header, rstrip_tokens; [reflexivity | exact Htoks | | exact Htail].
    unfold toks. discriminate. }
  split.
  - unfold is_header. rewrite Hstrip. apply startswith_header.
  - unfold parse_header. rewrite Hstrip. cbn [drop_first].
    rewrite (split_tokens_joined toks Htoks). unfold toks.
    rewrite (annotations_of_written (rec_annotations r) [] Hnd Hann). reflexivity.
Qed.

Lemma sequence_line_written (r : seq_record) :
  writable r ->
  strip (rec_seq r ++ nl) = rec_seq r /\ is_header (rec_seq r ++ nl) = false.
Proof.
  intros (_ & _ & Hseq & Hstart & _).
  assert (Hstrip : strip (rec_seq r ++ nl) = rec_seq r)
    by (apply strip_no_space; [exact Hseq | reflexivity]).
  split; [exact Hstrip |]. unfold is_header. rewrite Hstrip. exact Hstart.
Qed.

Lemma decode_written (records : list seq_record) :
  Forall writable records ->
  Forall well_formed_block
    (map (fun r => ((header_text r ++ nl)%string, [(rec_seq r ++ nl)%string])) records)
  /\ decode_blocks
       (map (fun r => ((header_text r ++ nl)%string, [(rec_seq r ++ nl)%string])) records)
     = Returned records.
Proof.
  induction records as [| r records IH]; intros Hall; simpl.
  - split; [constructor | reflexivity].
  - inversion Hall as [| x l Hr Hall']; subst.
    destruct (IH Hall') as [Hwf Hdec].
    destruct (parse_header_written r Hr) as [Hh Hparse].
    destruct (sequence_line_written r Hr) as [Hstrip Hbody].
    split.
    + constructor; [| exact Hwf]. split; [exact Hh |].
      simpl. constructor; [exact Hbody | constructor].
    + unfold decode_block. cbn [fst snd map]. rewrite Hparse, Hstrip, Hdec.
      destruct r. reflexivity.
Qed.

(** Writing records with [write_fasta] and reading the file again with
    [parse_fasta] gives back the same records, for records whose id is one
    token, whose sequence holds no white space and does not start with [>],
    and whose annotation keys are distinct and, like the values, free of
    white space and [=]. *)
Theorem write_parse_round_trip (records : list seq_record) :
  Forall writable records ->
  parse_fasta (file_lines (write_fasta records)) = Returned records.
Proof.
  intros Hall. rewrite (file_lines_written records Hall).
  destruct (decode_written records Hall) as [Hwf Hdec].
  assert (Hlines : flat_map record_lines records
                   = [] ++ flat_map block_lines
                             (map (fun r => ((header_text r ++ nl)%string,
                                             [(rec_seq r ++ nl)%string])) records)).
  { simpl. clear. induction records as [| r records IH]; simpl; [reflexivity |].
    rewrite IH. reflexivity. }
  rewrite Hlines, (parse_fasta_blocks [] _ (Forall_nil _) Hwf). exact Hdec.
Qed.

Lemma write_parse_round_trip_witness :
  Forall writable
    [SeqRecord "a" "AAAA" [("pLDDT", "85.0"); ("pTM", "0.500")]; SeqRecord "b" "" []]
  /\ parse_fasta
       (file_lines
          (write_fasta
             [SeqRecord "a" "AAAA" [("pLDDT", "85.0"); ("pTM", "0.500")];
              SeqRecord "b" "" []]))
     = Returned
         [SeqRecord "a" "AAAA" [("pLDDT", "85.0"); ("pTM", "0.500")]; SeqRecord "b" "" []].
Proof.
  assert (H : Forall writable
                [SeqRecord "a" "AAAA" [("pLDDT", "85.0"); ("pTM", "0.500")];
                 SeqRecord "b" "" []]).
  { constructor; [| constructor; [| constructor]].
    - unfold writable, plain. simpl. repeat split; try discriminate.
      + constructor; [simpl; intros [H | []]; discriminate |].
        constructor; [intros [] | constructor].
      + repeat constructor.
    - unfold writable. simpl. repeat split; try discriminate; constructor. }
  split; [exact H |]. apply (write_parse_round_trip _ H).
Defined.
